(** * xterm-local-skeleton: the history store and the terminal controller

    A shallow embedding of [historyController.ts] and [terminalController.ts].

    - JavaScript strings are sequences of UTF-16 code units ([list N]).
    - Objects are records, methods are functions that take the object and
      return the updated object; a method that can throw returns a
      [completion] next to the object as the exception left it.
    - [window.localStorage] is reached through the [Storage] interface.
    - The asynchronous functions of the controller are cut at their [await]s:
      each suspended continuation is a [Task], and an event resumes it. *)

From Stdlib Require Import ZArith NArith Ascii String Lia.
From stdpp Require Import base tactics option list numbers.

Set Default Proof Using "Type".
Local Open Scope N_scope.
Local Open Scope nat_scope.

(** ** JavaScript values used by the program *)

(** A string is its sequence of UTF-16 code units. *)
Abbreviation jsstring := (list N) (only parsing).

(** The code units of an ASCII literal. *)
Definition js (s : string) : jsstring :=
  map N_of_ascii (list_ascii_of_string s).

(** The empty string. *)
Definition empty_string : jsstring := [].

Inductive exn : Type :=
  | SyntaxError
  | TypeError
  | QuotaExceededError
  | SecurityError.

(** How a call ends: with a value, or with a thrown exception. *)
Inductive completion (A : Type) : Type :=
  | Normal (a : A)
  | Throw (e : exn).
Arguments Normal {A} a.
Arguments Throw {A} e.

(** [a ?? b] *)
Definition nullish {A} (a b : option A) : option A :=
  match a with
  | Some x => Some x
  | None => b
  end.
Infix "??" := nullish (at level 45, right associativity).

(** [arr[i]] for a numeric [i]: [undefined] below 0 and past the end.  An
    array slot holds [option A], so that a hole and a stored [undefined]
    both read as [None]. *)
Definition js_get {A} (arr : list (option A)) (i : Z) : option A :=
  if (i <? 0)%Z then None else mjoin (arr !! Z.to_nat i).

(** [arr[i]] on an array without holes. *)
Definition js_nth {A} (arr : list A) (i : Z) : option A :=
  if (i <? 0)%Z then None else arr !! Z.to_nat i.

(** [arr[i] = v] for [i >= 0]: past the end the array grows, and the slots
    in between are holes. *)
Definition js_set {A} (arr : list (option A)) (i : nat) (v : A) : list (option A) :=
  if decide (i < length arr) then <[i := Some v]> arr
  else arr ++ replicate (i - length arr) None ++ [Some v].

(** [s.substring(a, b)]: both ends are clamped to the length and swapped
    when out of order; [b = None] is the one-argument call. *)
Definition substring (s : jsstring) (a : nat) (b : option nat) : jsstring :=
  let len := length s in
  let finalStart := min a len in
  let finalEnd := match b with Some b => min b len | None => len end in
  let from := min finalStart finalEnd in
  let to := max finalStart finalEnd in
  take (to - from) (drop from s).

(** [s.charCodeAt(i)]; [None] is NaN. *)
Definition charCodeAt (s : jsstring) (i : nat) : option N := s !! i.

(** WhiteSpace and LineTerminator code units, as [String.prototype.trim]
    strips them. *)
Definition is_js_space (c : N) : bool :=
  ((9 <=? c) && (c <=? 13) || (c =? 32) || (c =? 160) || (c =? 5760)
   || (8192 <=? c) && (c <=? 8202) || (c =? 8232) || (c =? 8233)
   || (c =? 8239) || (c =? 8287) || (c =? 12288) || (c =? 65279))%N.

Fixpoint trimStart (s : jsstring) : jsstring :=
  match s with
  | c :: r => if is_js_space c then trimStart r else s
  | [] => []
  end.

Definition trimEnd (s : jsstring) : jsstring := rev (trimStart (rev s)).

Definition trim (s : jsstring) : jsstring := trimEnd (trimStart s).

Definition is_high_surrogate (c : N) : bool := ((55296 <=? c) && (c <=? 56319))%N.
Definition is_low_surrogate (c : N) : bool := ((56320 <=? c) && (c <=? 57343))%N.

(** ** JSON *)

Module JSON.

(** A parsed JSON text.  A number keeps its lexeme: the program never
    computes with one.  An object keeps its members in source order. *)
#[warnings="-register-all"] Inductive value : Type :=
  | Null
  | Bool (b : bool)
  | Number (lexeme : jsstring)
  | String (s : jsstring)
  | Array (vs : list value)
  | Object (ms : list (jsstring * value)).

Definition is_ws (c : N) : bool :=
  ((c =? 9) || (c =? 10) || (c =? 13) || (c =? 32))%N.

Fixpoint skip_ws (s : jsstring) : jsstring :=
  match s with
  | c :: r => if is_ws c then skip_ws r else s
  | [] => []
  end.

Fixpoint strip_prefix (p s : jsstring) : option jsstring :=
  match p, s with
  | [], _ => Some s
  | a :: p', b :: s' => if (a =? b)%N then strip_prefix p' s' else None
  | _ :: _, [] => None
  end.

Definition is_digit (c : N) : bool := ((48 <=? c) && (c <=? 57))%N.

Fixpoint digits (s : jsstring) : jsstring * jsstring :=
  match s with
  | c :: r => if is_digit c then let '(d, r') := digits r in (c :: d, r') else ([], s)
  | [] => ([], [])
  end.

Definition hex_digit (c : N) : option N :=
  if is_digit c then Some (c - 48)%N
  else if ((97 <=? c) && (c <=? 102))%N then Some (c - 87)%N
  else if ((65 <=? c) && (c <=? 70))%N then Some (c - 55)%N
  else None.

(** The code unit at the head, when [p] accepts it. *)
Definition optional (p : N → bool) (s : jsstring) : jsstring * jsstring :=
  match s with
  | c :: r => if p c then ([c], r) else ([], s)
  | [] => ([], s)
  end.

(** [0], or a digit string that does not start with 0. *)
Definition int_part (s : jsstring) : option (jsstring * jsstring) :=
  match s with
  | c :: r =>
    if (c =? 48)%N then Some ([c], r)
    else if is_digit c then Some (digits s)
    else None
  | [] => None
  end.

(** A point and at least one digit, or nothing. *)
Definition frac_part (s : jsstring) : option (jsstring * jsstring) :=
  match s with
  | c :: r =>
    if (c =? 46)%N then
      let '(d, r') := digits r in
      match d with [] => None | _ :: _ => Some (c :: d, r') end
    else Some ([], s)
  | [] => Some ([], s)
  end.

(** [e] or [E], an optional sign and at least one digit, or nothing. *)
Definition exp_part (s : jsstring) : option (jsstring * jsstring) :=
  match s with
  | e :: r =>
    if ((e =? 101) || (e =? 69))%N then
      let '(sign, r1) := optional (λ x, (x =? 43) || (x =? 45))%N r in
      let '(d, r2) := digits r1 in
      match d with [] => None | _ :: _ => Some (e :: sign ++ d, r2) end
    else Some ([], s)
  | [] => Some ([], s)
  end.

(** A number: an optional minus, the integer part, an optional fraction,
    an optional exponent.  Returns its lexeme. *)
Definition parse_number (s : jsstring) : option (jsstring * jsstring) :=
  let '(sign, s1) := optional (N.eqb 45) s in
  match int_part s1 with
  | None => None
  | Some (int, s2) =>
    match frac_part s2 with
    | None => None
    | Some (fr, s3) =>
      match exp_part s3 with
      | None => None
      | Some (ex, s4) => Some (sign ++ int ++ fr ++ ex, s4)
      end
    end
  end.

(** The characters of a string after its opening quote, up to and
    including the closing one. *)
Fixpoint parse_chars (s : jsstring) : option (jsstring * jsstring) :=
  match s with
  | [] => None
  | c :: r =>
    if (c =? 34)%N then Some ([], r)
    else if (c =? 92)%N then
      match r with
      | [] => None
      | e :: r1 =>
        if (e =? 117)%N then
          match r1 with
          | h1 :: h2 :: h3 :: h4 :: r2 =>
            match hex_digit h1, hex_digit h2, hex_digit h3, hex_digit h4 with
            | Some a, Some b, Some c', Some d =>
              match parse_chars r2 with
              | Some (t, r3) => Some ((a * 4096 + b * 256 + c' * 16 + d)%N :: t, r3)
              | None => None
              end
            | _, _, _, _ => None
            end
          | _ => None
          end
        else
          let unescaped :=
            if ((e =? 34) || (e =? 92) || (e =? 47))%N then Some e
            else if (e =? 98)%N then Some 8%N
            else if (e =? 102)%N then Some 12%N
            else if (e =? 110)%N then Some 10%N
            else if (e =? 114)%N then Some 13%N
            else if (e =? 116)%N then Some 9%N
            else None in
          match unescaped with
          | Some u =>
            match parse_chars r1 with
            | Some (t, r2) => Some (u :: t, r2)
            | None => None
            end
          | None => None
          end
      end
    else if (c <? 32)%N then None
    else
      match parse_chars r with
      | Some (t, r1) => Some (c :: t, r1)
      | None => None
      end
  end.

(** One value at the head of [s] (no leading white space), and what
    follows it.  Every call spends one unit of [fuel]; a call chain spends
    at most two units for each code unit it consumes. *)
Fixpoint parse_value (fuel : nat) (s : jsstring) : option (value * jsstring) :=
  match fuel with
  | 0 => None
  | S fuel' =>
    match s with
    | [] => None
    | c :: r =>
      if (c =? 110)%N then
        match strip_prefix (js "ull") r with Some r' => Some (Null, r') | None => None end
      else if (c =? 116)%N then
        match strip_prefix (js "rue") r with Some r' => Some (Bool true, r') | None => None end
      else if (c =? 102)%N then
        match strip_prefix (js "alse") r with Some r' => Some (Bool false, r') | None => None end
      else if (c =? 34)%N then
        match parse_chars r with Some (t, r') => Some (String t, r') | None => None end
      else if (c =? 91)%N then
        match skip_ws r with
        | x :: r' =>
          if (x =? 93)%N then Some (Array [], r')
          else
            match parse_elements fuel' (x :: r') with
            | Some (vs, r'') => Some (Array vs, r'')
            | None => None
            end
        | [] => None
        end
      else if (c =? 123)%N then
        match skip_ws r with
        | x :: r' =>
          if (x =? 125)%N then Some (Object [], r')
          else
            match parse_members fuel' (x :: r') with
            | Some (ms, r'') => Some (Object ms, r'')
            | None => None
            end
        | [] => None
        end
      else
        match parse_number s with
        | Some (n, r') => Some (Number n, r')
        | None => None
        end
    end
  end

(** [value (ws , ws value)* ws ]] *)
with parse_elements (fuel : nat) (s : jsstring) : option (list value * jsstring) :=
  match fuel with
  | 0 => None
  | S fuel' =>
    match parse_value fuel' s with
    | None => None
    | Some (v, r) =>
      match skip_ws r with
      | x :: r' =>
        if (x =? 44)%N then
          match parse_elements fuel' (skip_ws r') with
          | Some (vs, r'') => Some (v :: vs, r'')
          | None => None
          end
        else if (x =? 93)%N then Some ([v], r')
        else None
      | [] => None
      end
    end
  end

(** [string ws : ws value (ws , ws string ws : ws value)* ws }] *)
with parse_members (fuel : nat) (s : jsstring)
    : option (list (jsstring * value) * jsstring) :=
  match fuel with
  | 0 => None
  | S fuel' =>
    match s with
    | q :: r0 =>
      if (q =? 34)%N then
        match parse_chars r0 with
        | None => None
        | Some (k, r1) =>
          match skip_ws r1 with
          | colon :: r2 =>
            if (colon =? 58)%N then
              match parse_value fuel' (skip_ws r2) with
              | None => None
              | Some (v, r3) =>
                match skip_ws r3 with
                | x :: r' =>
                  if (x =? 44)%N then
                    match parse_members fuel' (skip_ws r') with
                    | Some (ms, r'') => Some ((k, v) :: ms, r'')
                    | None => None
                    end
                  else if (x =? 125)%N then Some ([(k, v)], r')
                  else None
                | [] => None
                end
              end
            else None
          | [] => None
          end
        end
      else None
    | [] => None
    end
  end.

(** [JSON.parse(text)] (no reviver). *)
Definition parse (text : jsstring) : completion value :=
  match parse_value (2 * length text + 2) (skip_ws text) with
  | Some (v, r) =>
    match skip_ws r with
    | [] => Normal v
    | _ :: _ => Throw SyntaxError
    end
  | None => Throw SyntaxError
  end.

Definition hex_char (d : N) : N := if (d <? 10)%N then (48 + d)%N else (87 + d)%N.

(** [\uXXXX], lower-case hexadecimal. *)
Definition unicode_escape (c : N) : jsstring :=
  [92%N; 117%N; hex_char (c / 4096 mod 16); hex_char (c / 256 mod 16);
   hex_char (c / 16 mod 16); hex_char (c mod 16)]%N.

(** QuoteJSONString without the quotes: the short escapes, [\u] escapes
    for the other control characters and for lone surrogates. *)
Fixpoint quote_chars (s : jsstring) : jsstring :=
  match s with
  | [] => []
  | c :: r =>
    if (c =? 8)%N then js "\b" ++ quote_chars r
    else if (c =? 9)%N then js "\t" ++ quote_chars r
    else if (c =? 10)%N then js "\n" ++ quote_chars r
    else if (c =? 12)%N then js "\f" ++ quote_chars r
    else if (c =? 13)%N then js "\r" ++ quote_chars r
    else if (c =? 34)%N then [92%N; 34%N] ++ quote_chars r
    else if (c =? 92)%N then [92%N; 92%N] ++ quote_chars r
    else if (c <? 32)%N then unicode_escape c ++ quote_chars r
    else if is_high_surrogate c then
      match r with
      | d :: r' =>
        if is_low_surrogate d then c :: d :: quote_chars r'
        else unicode_escape c ++ quote_chars r
      | [] => unicode_escape c
      end
    else if is_low_surrogate c then unicode_escape c ++ quote_chars r
    else c :: quote_chars r
  end.

Definition quote (s : jsstring) : jsstring := 34%N :: quote_chars s ++ [34%N].

Fixpoint join_commas (l : list jsstring) : jsstring :=
  match l with
  | [] => []
  | [x] => x
  | x :: r => x ++ 44%N :: join_commas r
  end.

(** [JSON.stringify(a)] for an array of strings [a]. *)
Definition stringify (a : list jsstring) : jsstring :=
  91%N :: join_commas (map quote a) ++ [93%N].

End JSON.


(** ** window.localStorage *)

(** The Web Storage operations the program calls.  Either can throw (a full
    or a disabled storage does); a throwing [setItem] stores nothing. *)
Class Storage (St : Type) : Type := {
  getItem : St -> jsstring -> completion (option jsstring);
  setItem : St -> jsstring -> jsstring -> completion St
}.

Fixpoint assoc (key : jsstring) (items : list (jsstring * jsstring)) : option jsstring :=
  match items with
  | [] => None
  | (k, v) :: r => if decide (k = key) then Some v else assoc key r
  end.

Fixpoint assoc_set (key v : jsstring) (items : list (jsstring * jsstring))
    : list (jsstring * jsstring) :=
  match items with
  | [] => [(key, v)]
  | (k, v') :: r => if decide (k = key) then (k, v) :: r else (k, v') :: assoc_set key v r
  end.

(** A storage with room left. *)
Record memory_storage : Type := MemoryStorage { items : list (jsstring * jsstring) }.

#[export] Instance memory_storage_ops : Storage memory_storage := {
  getItem st key := Normal (assoc key (items st));
  setItem st key v := Normal (MemoryStorage (assoc_set key v (items st)))
}.

(** A storage whose quota is used up: it can be read, every write throws. *)
Record full_storage : Type := FullStorage { full_items : list (jsstring * jsstring) }.

#[export] Instance full_storage_ops : Storage full_storage := {
  getItem st key := Normal (assoc key (full_items st));
  setItem st key v := Throw QuotaExceededError
}.

(** What [new C(...)] gives: the object; or an object one of whose fields
    holds a value outside its declared type ([JSON.parse] returns [any]),
    which the records below cannot hold; or an exception. *)
Inductive construction (T : Type) : Type :=
  | Constructed (obj : T)
  | ConstructedIllTyped (entries : list JSON.value)
  | ConstructorThrows (e : exn).
Arguments Constructed {T} obj.
Arguments ConstructedIllTyped {T} entries.
Arguments ConstructorThrows {T} e.

(** ** historyController.ts *)

Module HistoryController.

Record t : Type := mk {
  size : Z;
  persistent : option jsstring;
  entries : list jsstring;
  temporaries : list (option jsstring);
  cursor : nat
}.

Definition resetCursor (h : t) : t :=
  {| size := size h;
     persistent := persistent h;
     entries := entries h;
     cursor := length (entries h);
     temporaries := map (fun _ => None) (entries h) ++ [None] |}.

(** The value [this.entries] holds when the constructor reaches
    [this.resetCursor()]. *)
Definition loadEntries {St : Type} `{!Storage St} (persistent : option jsstring) (st : St)
    : JSON.value :=
  match persistent with
  | Some key =>
    match getItem st key with
    | Normal item =>
      match JSON.parse (default empty_string item) with
      | Normal v => v
      | Throw _ => JSON.Array []
      end
    | Throw _ => JSON.Array []
    end
  | None => JSON.Array []
  end.

Fixpoint as_strings (vs : list JSON.value) : option (list jsstring) :=
  match vs with
  | [] => Some []
  | JSON.String s :: r =>
    match as_strings r with
    | Some l => Some (s :: l)
    | None => None
    end
  | _ :: _ => None
  end.

(** [resetCursor] reads [length] and calls [map] on [this.entries]: on
    [null] the first throws, on any other value that is not an array the
    second is not a function. *)
Definition constructor {St : Type} `{!Storage St} (size : Z) (persistent : option jsstring)
    (st : St) : construction t :=
  match loadEntries persistent st with
  | JSON.Array vs =>
    match as_strings vs with
    | Some es =>
      Constructed (resetCursor {| size := size; persistent := persistent;
                                  entries := es; temporaries := []; cursor := 0 |})
    | None => ConstructedIllTyped vs
    end
  | _ => ConstructorThrows TypeError
  end.

(** The condition of [rewind]'s [if]. *)
Definition accepts (newEntry : option jsstring) (h : t) : bool :=
  match newEntry with
  | Some e =>
    bool_decide (trim e ≠ empty_string)
    && bool_decide (Some e ≠ js_nth (entries h) (Z.of_nat (length (entries h)) - 1))
  | None => false
  end.

(** [this.entries] after the [push] and the [splice]. *)
Definition pushed (e : jsstring) (h : t) : list jsstring :=
  let es := entries h ++ [e] in
  if (size h <? Z.of_nat (length es))%Z
  then drop (Z.to_nat (Z.of_nat (length es) - size h)) es
  else es.

Definition with_entries (es : list jsstring) (h : t) : t :=
  {| size := size h; persistent := persistent h; entries := es;
     temporaries := temporaries h; cursor := cursor h |}.

(** Returns the object and the storage as the call leaves them, also when
    [setItem] throws: then [resetCursor] has not run. *)
Definition rewind {St : Type} `{!Storage St} (newEntry : option jsstring) (h : t) (st : St)
    : completion unit * t * St :=
  match newEntry with
  | Some e =>
    if accepts newEntry h then
      let h1 := with_entries (pushed e h) h in
      match persistent h1 with
      | Some key =>
        match setItem st key (JSON.stringify (entries h1)) with
        | Normal st' => (Normal (), resetCursor h1, st')
        | Throw ex => (Throw ex, h1, st)
        end
      | None => (Normal (), resetCursor h1, st)
      end
    else (Normal (), resetCursor h, st)
  | None => (Normal (), resetCursor h, st)
  end.

Definition getPrevious (current : jsstring) (h : t) : option jsstring * t :=
  let temps := js_set (temporaries h) (cursor h) current in
  let entry := js_get temps (Z.of_nat (cursor h) - 1)
               ?? js_nth (entries h) (Z.of_nat (cursor h) - 1) in
  (entry,
   {| size := size h; persistent := persistent h; entries := entries h;
      temporaries := temps;
      cursor := if decide (0 < cursor h) then cursor h - 1 else cursor h |}).

Definition getNext (current : jsstring) (h : t) : option jsstring * t :=
  let temps := js_set (temporaries h) (cursor h) current in
  let entry := js_get temps (Z.of_nat (cursor h) + 1)
               ?? js_nth (entries h) (Z.of_nat (cursor h) + 1) in
  (entry,
   {| size := size h; persistent := persistent h; entries := entries h;
      temporaries := temps;
      cursor := if decide (cursor h < length (entries h)) then cursor h + 1 else cursor h |}).

End HistoryController.

(** ** terminalController.ts *)

(** [normalizeInput]: every match of [/\r\n|\n/g] becomes a carriage return. *)
Fixpoint normalizeInput (input : jsstring) : jsstring :=
  match input with
  | [] => []
  | c :: r =>
    if (c =? 13)%N then
      match r with
      | d :: r' => if (d =? 10)%N then 13%N :: normalizeInput r' else c :: normalizeInput r
      | [] => [c]
      end
    else if (c =? 10)%N then 13%N :: normalizeInput r
    else c :: normalizeInput r
  end.

(** What [for (const char of s)] iterates over: the code points of [s], a
    surrogate pair as one string of two code units. *)
Fixpoint code_points (s : jsstring) : list jsstring :=
  match s with
  | [] => []
  | c :: r =>
    if is_high_surrogate c then
      match r with
      | d :: r' => if is_low_surrogate d then [c; d] :: code_points r' else [c] :: code_points r
      | [] => [[c]]
      end
    else [c] :: code_points r
  end.

(** What [renderInput] writes after the prompt: the live line around the
    saved cursor position, or the text it was given. *)
Inductive shown : Type :=
  | Live (before after : jsstring)
  | Literal (input : jsstring).

(** What the controller does to its collaborators, in order: a call of
    [renderInput] (its arguments and the line it shows; the escape sequences
    it writes around them depend on the terminal's buffer), a [write] of its
    own, a call of the handler. *)
Inductive action : Type :=
  | Render (newLine completing : bool) (line : shown)
  | Write (data : jsstring)
  | RunHandler (input : jsstring).

(** A suspended [async] function of the controller, named by the [await]
    it waits at. *)
Inductive Task : Type :=
  | AwaitFlush     (* startInputPhase: await this.write(...) *)
  | AwaitRender    (* startInputPhase: await promise, in the loop *)
  | AwaitHandler.  (* run: await this.handler(input) *)

(** What the event loop can deliver next. *)
Inductive event : Type :=
  | Data (str : jsstring)           (* terminal.onData *)
  | Resize                          (* terminal.onResize *)
  | Resolved (i cursorX : nat)      (* the promise task [i] awaits resolves;
                                       [cursorX] is the terminal's column then *)
  | Rejected (i : nat).             (* the handler's promise rejects *)

Module TerminalController.

Record InputBufferEntry : Type := Entry { entry_input : jsstring; execute : bool }.

Record TerminalOptions : Type := Options {
  historySize : option Z;
  persistentHistory : option jsstring
}.

(** The fields of the object, then its surroundings: the storage, the
    suspended continuations, the actions performed so far on the terminal
    and the handler, and what was sent to [console.log]. *)
Record t (St : Type) : Type := mk {
  history : HistoryController.t;
  inputPhase : bool;
  input : jsstring;
  inputBuffer : list InputBufferEntry;
  cursor : nat;
  localStorage : St;
  pending : list Task;
  trace : list action;
  console : list jsstring
}.
Arguments mk {St}.
Arguments history {St}.
Arguments inputPhase {St}.
Arguments input {St}.
Arguments inputBuffer {St}.
Arguments cursor {St}.
Arguments localStorage {St}.
Arguments pending {St}.
Arguments trace {St}.
Arguments console {St}.

Section Methods.
Context {St : Type} `{!Storage St}.

Definition with_history (h : HistoryController.t) (st : St) (w : t St) : t St :=
  mk h (inputPhase w) (input w) (inputBuffer w) (cursor w) st (pending w) (trace w)
     (console w).

Definition with_inputPhase (b : bool) (w : t St) : t St :=
  mk (history w) b (input w) (inputBuffer w) (cursor w) (localStorage w) (pending w) (trace w)
     (console w).

Definition with_line (text : jsstring) (c : nat) (w : t St) : t St :=
  mk (history w) (inputPhase w) text (inputBuffer w) c (localStorage w) (pending w) (trace w)
     (console w).

Definition with_inputBuffer (q : list InputBufferEntry) (w : t St) : t St :=
  mk (history w) (inputPhase w) (input w) q (cursor w) (localStorage w) (pending w) (trace w)
     (console w).

Definition with_pending (p : list Task) (w : t St) : t St :=
  mk (history w) (inputPhase w) (input w) (inputBuffer w) (cursor w) (localStorage w) p (trace w)
     (console w).

Definition emit (a : action) (w : t St) : t St :=
  mk (history w) (inputPhase w) (input w) (inputBuffer w) (cursor w) (localStorage w)
     (pending w) (trace w ++ [a]) (console w).

Definition log (sequence : jsstring) (w : t St) : t St :=
  mk (history w) (inputPhase w) (input w) (inputBuffer w) (cursor w) (localStorage w)
     (pending w) (trace w) (console w ++ [sequence]).

Definition suspend (k : Task) (w : t St) : t St := with_pending (pending w ++ [k]) w.

(** The body of [renderInput] runs inside [writeAll] before the first
    [await]: the line is read when the call is made. *)
Definition renderInput (newLine completing : bool) (text : option jsstring) (w : t St) : t St :=
  emit (Render newLine completing
          match text with
          | None => Live (substring (input w) 0 (Some (cursor w)))
                         (substring (input w) (cursor w) None)
          | Some i => Literal i
          end) w.

(** [run] up to its [await]. *)
Definition run (text : jsstring) (w : t St) : t St :=
  suspend AwaitHandler (emit (RunHandler text) w).

(** [startInputPhase] up to its first [await]. *)
Definition startInputPhase (w : t St) : t St :=
  if negb (inputPhase w) then suspend AwaitFlush (emit (Write empty_string) w) else w.

(** [startInputPhase] from [let entry = this.inputBuffer.shift()] or
    from the [shift] in the loop, up to the next [await] or to its end. *)
Definition drain (w : t St) : t St :=
  match inputBuffer w with
  | entry :: rest =>
    let w := with_inputBuffer rest w in
    let w := renderInput true true (Some (entry_input entry)) w in
    if execute entry then run (entry_input entry) w
    else suspend AwaitRender w
  | [] =>
    let w := with_inputPhase true w in
    renderInput true false None w
  end.

(** [startInputPhase] after [await this.write(...)]. *)
Definition afterFlush (cursorX : nat) (w : t St) : t St :=
  drain (if decide (0 < cursorX) then emit (Write [13%N; 10%N]) w else w).

Definition pushInput (exec : bool) (w : t St) : completion unit * t St :=
  let '(c, h, st) :=
    HistoryController.rewind (if exec then Some (input w) else None)
                             (history w) (localStorage w) in
  let w := with_history h st w in
  match c with
  | Throw ex => (Throw ex, w)
  | Normal _ =>
    if inputPhase w then
      let w := with_inputPhase false w in
      let text := input w in
      let w := renderInput false true None w in
      let w := with_line empty_string 0 w in
      (Normal (), if exec then run text w else startInputPhase w)
    else
      let w := with_inputBuffer (inputBuffer w ++ [Entry (input w) exec]) w in
      (Normal (), with_line empty_string 0 w)
  end.

Definition onEscape (sequence : jsstring) (w : t St) : bool * t St :=
  if decide (sequence = js "[A") then
    let '(previous, h) := HistoryController.getPrevious (input w) (history w) in
    let w := with_history h (localStorage w) w in
    match previous with
    | Some p => (false, with_line p (length p) w)
    | None => (false, w)
    end
  else if decide (sequence = js "[B") then
    let '(next, h) := HistoryController.getNext (input w) (history w) in
    let w := with_history h (localStorage w) w in
    match next with
    | Some n => (false, with_line n (length n) w)
    | None => (false, w)
    end
  else if decide (sequence = js "[D") then
    (false, if decide (0 < cursor w) then with_line (input w) (cursor w - 1) w else w)
  else if decide (sequence = js "[C") then
    (false, if decide (cursor w < length (input w))
            then with_line (input w) (cursor w + 1) w else w)
  else if decide (sequence = js "[3~") then
    (false, if decide (cursor w < length (input w))
            then with_line (substring (input w) 0 (Some (cursor w))
                            ++ substring (input w) (cursor w + 1) None)
                           (cursor w) w
            else w)
  else (false, log sequence w).

(** [ord < 32 || ord === 0x7f]; both are false on NaN. *)
Definition is_control (ord : option N) : bool :=
  match ord with
  | Some o => ((o <? 32) || (o =? 127))%N
  | None => false
  end.

Definition onChar (char : jsstring) (w : t St) : completion bool * t St :=
  let ord := charCodeAt char 0 in
  if is_control ord then
    if decide (char = [13%N]) then
      let '(c, w) := pushInput true w in
      (match c with Normal _ => Normal true | Throw ex => Throw ex end, w)
    else if decide (char = [127%N]) then
      (Normal false,
       if decide (0 < cursor w)
       then with_line (substring (input w) 0 (Some (cursor w - 1))
                       ++ substring (input w) (cursor w) None)
                      (cursor w - 1) w
       else w)
    else if decide (char = [3%N]) then
      let w := with_line (input w ++ js "^C") (cursor w) w in
      let '(c, w) := pushInput false w in
      (match c with Normal _ => Normal true | Throw ex => Throw ex end, w)
    else (Normal false, w)
  else
    (Normal false,
     with_line (substring (input w) 0 (Some (cursor w)) ++ char
                ++ substring (input w) (cursor w) None)
               (cursor w + length char) w).

(** The [for] loop of [onData]: a throwing [onChar] ends it. *)
Fixpoint onChars (chars : list jsstring) (inputPushed : bool) (w : t St)
    : completion bool * t St :=
  match chars with
  | [] => (Normal inputPushed, w)
  | char :: rest =>
    match onChar char w with
    | (Normal b, w) => onChars rest b w
    | (Throw ex, w) => (Throw ex, w)
    end
  end.

Definition onData (str : jsstring) (w : t St) : completion unit * t St :=
  let '(c, w) :=
    if decide (0 < length str) then
      if decide (charCodeAt str 0 = Some 27%N) then
        let '(b, w) := onEscape (substring str 1 None) w in (Normal b, w)
      else onChars (code_points (normalizeInput str)) true w
    else (Normal true, w) in
  match c with
  | Throw ex => (Throw ex, w)
  | Normal inputPushed =>
    (Normal (),
     if negb inputPushed && inputPhase w then renderInput false false None w else w)
  end.

Definition onResize (w : t St) : t St :=
  if inputPhase w then renderInput false false None w else w.

(** The constructor, once [new HistoryController(...)] has returned [h]. *)
Definition init (h : HistoryController.t) (st : St) : t St :=
  startInputPhase (mk h false empty_string [] 0 st [] [] []).

Definition constructor (config : TerminalOptions) (st : St) : construction (t St) :=
  match HistoryController.constructor (default 100%Z (historySize config))
                                      (persistentHistory config) st with
  | Constructed h => Constructed (init h st)
  | ConstructedIllTyped vs => ConstructedIllTyped vs
  | ConstructorThrows ex => ConstructorThrows ex
  end.

(** One turn of the event loop.  An exception thrown inside [onData]
    goes to the emitter: the object keeps what the call did to it.
    Resolving an [await] removes the task and runs its continuation. *)
Definition step (ev : event) (w : t St) : t St :=
  match ev with
  | Data str => snd (onData str w)
  | Resize => onResize w
  | Resolved i cursorX =>
    match pending w !! i with
    | Some k =>
      let w := with_pending (delete i (pending w)) w in
      match k with
      | AwaitFlush => afterFlush cursorX w
      | AwaitRender => drain w
      | AwaitHandler => startInputPhase w
      end
    | None => w
    end
  | Rejected i =>
    match pending w !! i with
    | Some AwaitHandler => with_pending (delete i (pending w)) w
    | _ => w
    end
  end.

Definition steps (evs : list event) (w : t St) : t St :=
  fold_left (fun w ev => step ev w) evs w.

End Methods.

End TerminalController.

(** * Vocabulary of the properties *)

Module HistorySpec.
Import HistoryController.

(** The [n] most recent of a list, oldest first. *)
Definition most_recent (n : nat) (l : list jsstring) : list jsstring :=
  drop (length l - n) l.

(** White space throughout. *)
Definition blank (e : jsstring) : bool := forallb is_js_space e.

(** The entries that are appended, out of the candidates [news] and after
    the entry [prev]: the non-blank ones that differ from the entry
    appended before them. *)
Fixpoint accepted (prev : option jsstring) (news : list jsstring) : list jsstring :=
  match news with
  | [] => []
  | e :: r =>
    if negb (blank e) && bool_decide (prev ≠ Some e)
    then e :: accepted (Some e) r
    else accepted prev r
  end.

(** The store a constructor leaves, with [es] loaded. *)
Definition fresh (size : Z) (persistent : option jsstring) (es : list jsstring) : t :=
  {| size := size; persistent := persistent; entries := es;
     temporaries := replicate (S (length es)) None; cursor := length es |}.

(** A sequence of [rewind] calls, each with an entry. *)
Fixpoint rewinds {St : Type} `{!Storage St} (news : list jsstring) (h : t) (st : St)
    : t * St :=
  match news with
  | [] => (h, st)
  | e :: r => let '(_, h', st') := rewind (Some e) h st in rewinds r h' st'
  end.

(** The browse cursor is a position of the history, and there is one
    scratch slot for each position. *)
Definition history_ok (h : t) : Prop :=
  cursor h ≤ length (entries h) ∧ length (temporaries h) = S (length (entries h)).

End HistorySpec.

Module ControllerSpec.
Import TerminalController.

Section WithStorage.
Context {St : Type} `{!Storage St}.

Definition line_ok (w : t St) : Prop := cursor w ≤ length (input w).

(** Up arrow and Down arrow. *)
Definition up (w : t St) : t St := (onEscape (js "[A") w).2.
Definition down (w : t St) : t St := (onEscape (js "[B") w).2.

(** The user changes the line to [f] of what it shows. *)
Definition edit (f : jsstring → jsstring) (w : t St) : t St :=
  with_line (f (input w)) (length (f (input w))) w.

(** One Up arrow for each element of [edits], followed by that edit.
    Returns the lines left behind, first to last, and the state. *)
Fixpoint browse_up (edits : list (jsstring → jsstring)) (w : t St)
    : list jsstring * t St :=
  match edits with
  | [] => ([], w)
  | f :: fs =>
    let '(behind, w') := browse_up fs (edit f (up w)) in
    (input w :: behind, w')
  end.

(** [k] Down arrows.  Returns the lines shown after each, and the state. *)
Fixpoint browse_down (k : nat) (w : t St) : list jsstring * t St :=
  match k with
  | 0 => ([], w)
  | S k' =>
    let '(seen, w') := browse_down k' (down w) in
    (input (down w) :: seen, w')
  end.



(** The write that precedes draining when the terminal's cursor is not
    in the first column. *)
Definition fresh_line (cursorX : nat) : list action :=
  if decide (0 < cursorX) then [Write [13%N; 10%N]] else [].

(** The live phase has an empty queue and nothing suspended; out of it
    at most one continuation is suspended. *)
Definition phase_ok (w : t St) : Prop :=
  if inputPhase w then inputBuffer w = [] ∧ pending w = []
  else length (pending w) ≤ 1.



(** From [w] to [w'] the controller stayed out of the live phase, did
    nothing to the terminal or the handler, resumed nothing, and only
    added to the end of its queue. *)
Definition quiet (w w' : t St) : Prop :=
  inputPhase w' = false ∧ pending w' = pending w ∧ trace w' = trace w
  ∧ inputBuffer w `prefix_of` inputBuffer w'.

End WithStorage.
End ControllerSpec.

(** ** Further vocabulary *)

(** A string as [JSON.stringify] takes it: each code unit below 2^16. *)
Definition well_formed (s : jsstring) : Prop := Forall (λ c, (c < 65536)%N) s.

Module HistoryBrowsing.
Import HistoryController HistorySpec.
(** Browsing leaves a scratch edit in every slot above the browse cursor. *)
Definition browse_ok (h : t) : Prop :=
  history_ok h
  ∧ ∀ i, cursor h < i ≤ length (entries h) →
         is_Some (js_get (temporaries h) (Z.of_nat i)).
End HistoryBrowsing.

(** A code unit that [onChar] inserts: not below 32 and not 0x7f. *)
Definition printable (c : N) : bool := negb (TerminalController.is_control (Some c)).

(** A control character that [onChar] has no case for. *)
Definition ignored (c : N) : bool :=
  TerminalController.is_control (Some c)
  && negb ((c =? 13) || (c =? 10) || (c =? 127) || (c =? 3) || (c =? 27))%N.

(** Lines as a paste delivers them: each followed by a line feed. *)
Definition lines_text (lines : list jsstring) : jsstring :=
  concat (map (λ l, l ++ [10%N]) lines).

(** A line of the terminal's buffer, as far as [renderInput] reads it. *)
Record BufferLine : Type := { isWrapped : bool }.

(** The part of [terminal.buffer.active] that [renderInput] reads: the
    number [cursorY], and [getLine], which is undefined where the buffer has
    no line at the index it is given.  Both are the terminal library's; the
    index passed to [getLine] is the one the source computes,
    [cursorY - wrappedLines], whatever line the library keeps there. *)
Record Buffer : Type := { cursorY : nat; getLine : nat → option BufferLine }.

(** The condition [getLine(y)?.isWrapped]: undefined counts as false. *)
Definition wrappedAt (b : Buffer) (y : nat) : bool :=
  match getLine b y with
  | Some line => isWrapped line
  | None => false
  end.

(** The [while] loop of [renderInput], from [wrappedLines = wrapped]; it
    runs at most [cursorY] times. *)
Fixpoint countWrapped (fuel wrapped : nat) (b : Buffer) : nat :=
  match fuel with
  | 0 => wrapped
  | S fuel' =>
    if (wrapped <? cursorY b) && wrappedAt b (cursorY b - wrapped)
    then countWrapped fuel' (S wrapped) b
    else wrapped
  end.

Definition wrappedLines (b : Buffer) : nat := countWrapped (cursorY b) 0 b.

Section ControllerVocabulary.
Import TerminalController.
Context {St : Type} `{!Storage St}.

(** The end of [onData] when no line was pushed. *)
Definition rerender (w : t St) : t St :=
  if inputPhase w then renderInput false false None w else w.

(** The line buffer with [text] typed at the cursor. *)
Definition typed (text : jsstring) (w : t St) : t St :=
  with_line (take (cursor w) (input w) ++ text ++ drop (cursor w) (input w))
            (cursor w + length text) w.

(** Data or a resize: what the user and the window send, as opposed to
    what the controller's own promises deliver. *)
Definition from_outside (ev : event) : Prop :=
  match ev with
  | Data _ | Resize => True
  | Resolved _ _ | Rejected _ => False
  end.

(** The state after Enter out of the live phase, when [rewind] returns. *)
Definition queued (w : t St) : t St :=
  mk (HistoryController.rewind (Some (input w)) (history w) (localStorage w)).1.2
     (inputPhase w) empty_string (inputBuffer w ++ [Entry (input w) true]) 0
     (HistoryController.rewind (Some (input w)) (history w) (localStorage w)).2
     (pending w) (trace w) (console w).

(** What a step may change when no storage key is configured. *)
Definition unkeyed (w w' : t St) : Prop :=
  localStorage w' = localStorage w
  ∧ HistoryController.persistent (history w') = None
  ∧ (HistoryBrowsing.browse_ok (history w) → HistoryBrowsing.browse_ok (history w')).

End ControllerVocabulary.

(** ** States to run the program on *)

(** A store with two entries and no persistence, as [resetCursor] leaves it. *)
Definition sample_history : HistoryController.t :=
  HistorySpec.fresh 100 None [js "ls"; js "cd .."].

(** The live phase, with "ab" typed and the cursor between the letters. *)
Definition sample_live : TerminalController.t memory_storage :=
  TerminalController.mk sample_history true (js "ab") [] 1 (MemoryStorage []) [] [] [].

(** Entering the input phase: [startInputPhase] waits for the flush. *)
Definition sample_entering : TerminalController.t memory_storage :=
  TerminalController.init sample_history (MemoryStorage []).


(** U+1F600, a surrogate pair. *)
Definition grinning_face : jsstring := [55357%N; 56832%N].

(** A store at capacity, persisted under the key "history". *)
Definition sample_full : HistoryController.t :=
  HistorySpec.fresh 2 (Some (js "history")) [js "ls"; js "cd"].

(** The state [sample_live] is in while the handler runs the line "ab". *)
Definition sample_running : TerminalController.t memory_storage :=
  (TerminalController.onChar [13%N] sample_live).2.

(** [cursorY] is 3; [getLine] has wrapped lines at the indices 2 and 3, a
    line that is not wrapped at 0 and 1, and no line from 4 on. *)
Definition sample_buffer : Buffer :=
  {| cursorY := 3;
     getLine := λ y, if 4 <=? y then None else Some {| isWrapped := 2 <=? y |} |}.

(** * Properties *)

(** ** Strings and arrays *)

Lemma substring_prefix (s : jsstring) (n : nat) :
  substring s 0 (Some n) = take n s.
Proof.
  unfold substring. cbv zeta.
  replace (min 0 (length s)) with 0 by lia.
  replace (max 0 (min n (length s)) - min 0 (min n (length s)))
    with (min n (length s)) by lia.
  replace (min 0 (min n (length s))) with 0 by lia.
  rewrite drop_0. destruct (decide (n ≤ length s)).
  - f_equal. lia.
  - replace (min n (length s)) with (length s) by lia.
    by rewrite firstn_all, take_ge by lia.
Qed.

Lemma substring_suffix (s : jsstring) (n : nat) :
  substring s n None = drop n s.
Proof.
  unfold substring. cbv zeta. destruct (decide (n ≤ length s)).
  - replace (min n (length s)) with n by lia.
    replace (min n (length s)) with n by lia.
    apply take_ge. rewrite length_drop. lia.
  - replace (min n (length s)) with (length s) by lia.
    rewrite Nat.min_id, Nat.max_id, Nat.sub_diag.
    by rewrite !drop_ge by lia.
Qed.

Lemma js_nth_last {A} (l : list A) :
  js_nth l (Z.of_nat (length l) - 1) = list.last l.
Proof.
  unfold js_nth. rewrite last_lookup. destruct l as [|x l]; [done|].
  simpl length. destruct (Z.ltb_spec (Z.of_nat (S (length l)) - 1) 0); [lia|].
  f_equal. lia.
Qed.

Lemma js_nth_pred {A} (l : list A) (c : nat) :
  js_nth l (Z.of_nat (S c) - 1) = l !! c.
Proof.
  unfold js_nth. destruct (Z.ltb_spec (Z.of_nat (S c) - 1) 0); [lia|]. f_equal. lia.
Qed.

Lemma js_get_nat {A} (arr : list (option A)) (i : nat) :
  js_get arr (Z.of_nat i) = mjoin (arr !! i).
Proof.
  unfold js_get. destruct (Z.ltb_spec (Z.of_nat i) 0); [lia|]. by rewrite Nat2Z.id.
Qed.

Lemma js_get_set_eq {A} (arr : list (option A)) (i : nat) (v : A) :
  js_get (js_set arr i v) (Z.of_nat i) = Some v.
Proof.
  rewrite js_get_nat. unfold js_set. destruct (decide (i < length arr)).
  - by rewrite list_lookup_insert_eq.
  - rewrite lookup_app_r by lia. rewrite lookup_app_r; rewrite length_replicate; [|lia].
    by replace (i - length arr - (i - length arr)) with 0 by lia.
Qed.

Lemma js_get_set_ne {A} (arr : list (option A)) (i j : nat) (v : A) :
  i ≠ j → js_get (js_set arr i v) (Z.of_nat j) = js_get arr (Z.of_nat j).
Proof.
  intros Hne. rewrite !js_get_nat. unfold js_set. destruct (decide (i < length arr)).
  - by rewrite list_lookup_insert_ne.
  - destruct (decide (j < length arr)).
    + by rewrite lookup_app_l.
    + rewrite (lookup_ge_None_2 arr j) by lia. rewrite lookup_app_r by lia.
      destruct (decide (j - length arr < i - length arr)).
      * rewrite lookup_app_l by (rewrite length_replicate; lia).
        by rewrite lookup_replicate_2.
      * rewrite lookup_app_r by (rewrite length_replicate; lia).
        rewrite length_replicate.
        destruct (j - length arr - (i - length arr)) as [|m] eqn:E; [lia|done].
Qed.

Lemma trimStart_nil (s : jsstring) :
  trimStart s = [] ↔ forallb is_js_space s = true.
Proof.
  induction s as [|c s IH]; simpl; [done|].
  destruct (is_js_space c); simpl; [done|]. split; discriminate.
Qed.

Lemma trimStart_keeps (s : jsstring) :
  forallb is_js_space s = false → forallb is_js_space (trimStart s) = false.
Proof.
  induction s as [|c s IH]; simpl; [done|].
  destruct (is_js_space c) eqn:E; simpl; [done|]. by rewrite E.
Qed.

Lemma forallb_rev (p : N → bool) (s : jsstring) :
  forallb p (rev s) = forallb p s.
Proof.
  induction s as [|c s IH]; simpl; [done|].
  rewrite forallb_app, IH. simpl. rewrite andb_true_r. apply andb_comm.
Qed.

(** [s.trim()] is the empty string exactly when [s] is white space throughout. *)
Lemma trim_blank (s : jsstring) :
  trim s = empty_string ↔ forallb is_js_space s = true.
Proof.
  unfold trim, trimEnd. change empty_string with (@nil N). split.
  - intros H. destruct (forallb is_js_space s) eqn:E; [done|exfalso].
    apply trimStart_keeps in E. rewrite <- forallb_rev in E.
    apply (f_equal (@rev N)) in H. rewrite rev_involutive in H. simpl in H.
    apply trimStart_nil in H. congruence.
  - intros H. apply trimStart_nil in H. by rewrite H.
Qed.

(** ** The JSON parser *)

Module JSONFacts.
Import JSON.

Lemma skip_ws_length (s : jsstring) : length (skip_ws s) ≤ length s.
Proof. induction s as [|c s IH]; simpl; [done|]. destruct (is_ws c); simpl; lia. Qed.

Lemma strip_prefix_length (p s r : jsstring) :
  strip_prefix p s = Some r → length r ≤ length s.
Proof.
  revert s. induction p as [|a p IH]; intros [|b s] H; simplify_eq/=; try lia.
  destruct (a =? b)%N; [|done]. apply IH in H. lia.
Qed.

Lemma digits_length (s : jsstring) : length (digits s).2 ≤ length s.
Proof.
  induction s as [|c s IH]; simpl; [done|].
  destruct (is_digit c); simpl; [|lia]. destruct (digits s). simpl in *. lia.
Qed.

Lemma optional_length (p : N → bool) (s : jsstring) : length (optional p s).2 ≤ length s.
Proof. destruct s as [|c s]; simpl; [done|]. destruct (p c); simpl; lia. Qed.

Lemma int_part_length (s n r : jsstring) :
  int_part s = Some (n, r) → length r ≤ length s.
Proof.
  destruct s as [|c s]; [done|]. unfold int_part.
  destruct (c =? 48)%N; [intros; simplify_eq/=; lia|].
  destruct (is_digit c); [|done]. intros H.
  pose proof (digits_length (c :: s)) as Hd.
  replace (digits (c :: s)) with (n, r) in Hd by congruence. done.
Qed.

Lemma frac_part_length (s n r : jsstring) :
  frac_part s = Some (n, r) → length r ≤ length s.
Proof.
  destruct s as [|c s]; [intros; simplify_eq/=; lia|]. unfold frac_part.
  destruct (c =? 46)%N; [|intros; simplify_eq/=; lia].
  pose proof (digits_length s) as Hd. destruct (digits s) as [[|d ds] r'];
    intros; simplify_eq/=. lia.
Qed.

Lemma exp_part_length (s n r : jsstring) :
  exp_part s = Some (n, r) → length r ≤ length s.
Proof.
  destruct s as [|c s]; [intros; simplify_eq/=; lia|]. unfold exp_part.
  destruct (_ || _)%N; [|intros; simplify_eq/=; lia].
  pose proof (optional_length (λ x, (x =? 43) || (x =? 45))%N s) as Ho.
  destruct (optional _ s) as [sg r1].
  pose proof (digits_length r1) as Hd. destruct (digits r1) as [[|d ds] r'];
    intros; simplify_eq/=. lia.
Qed.

Lemma parse_number_length (s n r : jsstring) :
  parse_number s = Some (n, r) → length r ≤ length s.
Proof.
  unfold parse_number. pose proof (optional_length (N.eqb 45) s) as Ho.
  destruct (optional _ s) as [sg s1].
  destruct (int_part s1) as [[i s2]|] eqn:Ei; [|done]. apply int_part_length in Ei.
  destruct (frac_part s2) as [[fr s3]|] eqn:Ef; [|done]. apply frac_part_length in Ef.
  destruct (exp_part s3) as [[ex s4]|] eqn:Ee; [|done]. apply exp_part_length in Ee.
  intros; simplify_eq/=. lia.
Qed.

Lemma parse_chars_length (s t r : jsstring) :
  parse_chars s = Some (t, r) → length r < length s.
Proof.
  remember (length s) as n eqn:Hn. assert (length s ≤ n) as Hle by lia. clear Hn.
  revert s t r Hle. induction n as [|n IH]; intros [|c s] t r Hle H; simplify_eq/=; try lia.
  destruct (c =? 34)%N; [simplify_eq; lia|].
  destruct (c =? 92)%N.
  - destruct s as [|e s]; [done|]. destruct (e =? 117)%N.
    + destruct s as [|h1 [|h2 [|h3 [|h4 s]]]]; try done.
      destruct (hex_digit h1), (hex_digit h2), (hex_digit h3), (hex_digit h4); try done.
      destruct (parse_chars s) as [[t' r']|] eqn:E; [|done].
      apply IH in E; [|simpl in Hle; lia]. simplify_eq/=. lia.
    + destruct (if (_ || _)%N then _ else _); [|done].
      destruct (parse_chars s) as [[t' r']|] eqn:E; [|done].
      apply IH in E; [|simpl in Hle; lia]. simplify_eq/=. lia.
  - destruct (c <? 32)%N; [done|].
    destruct (parse_chars s) as [[t' r']|] eqn:E; [|done].
    apply IH in E; [|lia]. simplify_eq/=. lia.
Qed.

Ltac leaf parser :=
  split; [simpl in *; lia|];
  intros [|?] ?; [simpl in *; lia|]; cbn [parser];
  repeat match goal with H : ?x = _ |- context [?x] => rewrite H end; done.

(** A result of the parser is its result with any larger amount of fuel:
    [2 * consumed + 1] units are enough for a value, [2 * consumed] for the
    rest of an array or of an object. *)
Lemma parse_fuel (f : nat) :
  (∀ s v r, parse_value f s = Some (v, r) →
     length r ≤ length s
     ∧ ∀ f', 2 * (length s - length r) + 1 ≤ f' → parse_value f' s = Some (v, r))
  ∧ (∀ s vs r, parse_elements f s = Some (vs, r) →
       length r < length s
       ∧ ∀ f', 2 * (length s - length r) ≤ f' → parse_elements f' s = Some (vs, r))
  ∧ (∀ s ms r, parse_members f s = Some (ms, r) →
       length r < length s
       ∧ ∀ f', 2 * (length s - length r) ≤ f' → parse_members f' s = Some (ms, r)).
Proof.
  induction f as [|f (IHv & IHe & IHm)]; [by split_and!|].
  assert (∀ s x r', skip_ws s = x :: r' → length r' < length s) as Hws.
  { intros s x r' E. pose proof (skip_ws_length s) as H. rewrite E in H. simpl in H. lia. }
  split_and!.
  - intros [|c s] v r H; [done|]. cbn [parse_value] in H.
    destruct (c =? 110)%N eqn:E1.
    { destruct (strip_prefix _ s) as [r'|] eqn:E; [|done]. simplify_eq.
      pose proof (strip_prefix_length _ _ _ E). leaf parse_value. }
    destruct (c =? 116)%N eqn:E2.
    { destruct (strip_prefix _ s) as [r'|] eqn:E; [|done]. simplify_eq.
      pose proof (strip_prefix_length _ _ _ E). leaf parse_value. }
    destruct (c =? 102)%N eqn:E3.
    { destruct (strip_prefix _ s) as [r'|] eqn:E; [|done]. simplify_eq.
      pose proof (strip_prefix_length _ _ _ E). leaf parse_value. }
    destruct (c =? 34)%N eqn:E4.
    { destruct (parse_chars s) as [[t r']|] eqn:E; [|done]. simplify_eq.
      pose proof (parse_chars_length _ _ _ E). leaf parse_value. }
    destruct (c =? 91)%N eqn:E5.
    { destruct (skip_ws s) as [|x r'] eqn:Es; [done|]. pose proof (Hws _ _ _ Es).
      destruct (x =? 93)%N eqn:Ex; [simplify_eq; leaf parse_value|].
      destruct (parse_elements f (x :: r')) as [[vs r'']|] eqn:Ee; [|done]. simplify_eq.
      apply IHe in Ee as [Hl Hf]. split; [simpl in *; lia|].
      intros [|f'] Hf'; [simpl in *; lia|]. cbn [parse_value].
      rewrite E1, E2, E3, E4, E5, Es, Ex, Hf by (simpl in *; lia). done. }
    destruct (c =? 123)%N eqn:E6.
    { destruct (skip_ws s) as [|x r'] eqn:Es; [done|]. pose proof (Hws _ _ _ Es).
      destruct (x =? 125)%N eqn:Ex; [simplify_eq; leaf parse_value|].
      destruct (parse_members f (x :: r')) as [[ms r'']|] eqn:Ee; [|done]. simplify_eq.
      apply IHm in Ee as [Hl Hf]. split; [simpl in *; lia|].
      intros [|f'] Hf'; [simpl in *; lia|]. cbn [parse_value].
      rewrite E1, E2, E3, E4, E5, E6, Es, Ex, Hf by (simpl in *; lia). done. }
    destruct (parse_number (c :: s)) as [[n r']|] eqn:E; [|done]. simplify_eq.
    pose proof (parse_number_length _ _ _ E). leaf parse_value.
  - intros s vs r H. cbn [parse_elements] in H.
    destruct (parse_value f s) as [[v r1]|] eqn:Ev; [|done].
    apply IHv in Ev as [Hl1 Hf1].
    destruct (skip_ws r1) as [|x r'] eqn:Es; [done|]. pose proof (Hws _ _ _ Es).
    destruct (x =? 44)%N eqn:Ex.
    { destruct (parse_elements f (skip_ws r')) as [[vs' r'']|] eqn:Ee; [|done]. simplify_eq.
      apply IHe in Ee as [Hl2 Hf2]. pose proof (skip_ws_length r').
      split; [lia|]. intros [|f'] Hf'; [lia|]. cbn [parse_elements].
      rewrite Hf1, Es, Ex, Hf2 by lia. done. }
    destruct (x =? 93)%N eqn:Ex2; [|done]. simplify_eq.
    split; [lia|]. intros [|f'] Hf'; [lia|]. cbn [parse_elements].
    rewrite Hf1, Es, Ex, Ex2 by lia. done.
  - intros [|q s] ms r H; [done|]. cbn [parse_members] in H.
    destruct (q =? 34)%N eqn:Eq; [|done].
    destruct (parse_chars s) as [[k r1]|] eqn:Ek; [|done].
    pose proof (parse_chars_length _ _ _ Ek).
    destruct (skip_ws r1) as [|colon r2] eqn:Es1; [done|]. pose proof (Hws _ _ _ Es1).
    destruct (colon =? 58)%N eqn:Ec; [|done].
    destruct (parse_value f (skip_ws r2)) as [[v r3]|] eqn:Ev; [|done].
    apply IHv in Ev as [Hl1 Hf1]. pose proof (skip_ws_length r2).
    destruct (skip_ws r3) as [|x r'] eqn:Es; [done|]. pose proof (Hws _ _ _ Es).
    destruct (x =? 44)%N eqn:Ex.
    { destruct (parse_members f (skip_ws r')) as [[ms' r'']|] eqn:Ee; [|done]. simplify_eq.
      apply IHm in Ee as [Hl2 Hf2]. pose proof (skip_ws_length r').
      split; [simpl; lia|]. intros [|f'] Hf'; [simpl in *; lia|]. cbn [parse_members].
      rewrite Eq, Ek, Es1, Ec, Hf1, Es, Ex, Hf2 by (simpl in *; lia). done. }
    destruct (x =? 125)%N eqn:Ex2; [|done]. simplify_eq.
    split; [simpl; lia|]. intros [|f'] Hf'; [simpl in *; lia|]. cbn [parse_members].
    rewrite Eq, Ek, Es1, Ec, Hf1, Es, Ex, Ex2 by (simpl in *; lia). done.
Qed.

(** [JSON.parse] gives the parser's answer for any larger amount of fuel. *)
Lemma parse_enough_fuel (text : jsstring) (f : nat) :
  2 * length text + 2 ≤ f →
  parse_value f (skip_ws text) = parse_value (2 * length text + 2) (skip_ws text).
Proof.
  intros Hf. pose proof (skip_ws_length text) as Hs.
  destruct (parse_value f (skip_ws text)) as [[v r]|] eqn:E.
  - apply parse_fuel in E as [Hl E]. symmetry. apply E. lia.
  - destruct (parse_value (2 * length text + 2) (skip_ws text)) as [[v r]|] eqn:E'; [|done].
    apply parse_fuel in E' as [Hl E']. rewrite E' in E by lia. done.
Qed.

End JSONFacts.

(** ** The history store *)

Module HistoryFacts.
Import HistoryController HistorySpec.

Section WithStorage.
Context {St : Type} `{!Storage St}.

Lemma accepts_spec (e : jsstring) (h : t) :
  accepts (Some e) h = negb (blank e) && bool_decide (list.last (entries h) ≠ Some e).
Proof.
  unfold accepts, blank. rewrite js_nth_last. f_equal.
  - destruct (forallb is_js_space e) eqn:E; simpl.
    + apply bool_decide_eq_false. intros H. apply H. by apply trim_blank.
    + apply bool_decide_eq_true. intros H. apply trim_blank in H. congruence.
  - apply bool_decide_ext. split; congruence.
Qed.

(** What [rewind] leaves in [entries], however it ends. *)
Lemma rewind_entries (e : jsstring) (h : t) (st : St) :
  entries (rewind (Some e) h st).1.2
  = if accepts (Some e) h then pushed e h else entries h.
Proof.
  unfold rewind. destruct (accepts (Some e) h); [|done].
  simpl. destruct (persistent h); [|done]. by destruct (setItem _ _ _).
Qed.

Lemma rewind_size (o : option jsstring) (h : t) (st : St) :
  size (rewind o h st).1.2 = size h.
Proof.
  unfold rewind. destruct o as [e|]; [|done].
  destruct (accepts (Some e) h); [|done].
  simpl. destruct (persistent h); [|done]. by destruct (setItem _ _ _).
Qed.

Lemma pushed_most_recent (e : jsstring) (h : t) :
  (0 ≤ size h)%Z →
  pushed e h = most_recent (Z.to_nat (size h)) (entries h ++ [e]).
Proof.
  intros Hs. unfold pushed, most_recent.
  destruct (Z.ltb_spec (size h) (Z.of_nat (length (entries h ++ [e])))).
  - f_equal. lia.
  - replace (length (entries h ++ [e]) - Z.to_nat (size h)) with 0 by lia. done.
Qed.

Lemma most_recent_length (n : nat) (l : list jsstring) :
  length (most_recent n l) ≤ n.
Proof. unfold most_recent. rewrite length_drop. lia. Qed.

Lemma most_recent_snoc (n : nat) (l : list jsstring) (e : jsstring) :
  most_recent n (most_recent n l ++ [e]) = most_recent n (l ++ [e]).
Proof.
  unfold most_recent. rewrite !length_app, length_drop. simpl.
  destruct (decide (length l ≤ n)).
  - replace (length l - n) with 0 by lia. simpl. f_equal. lia.
  - rewrite !drop_app, drop_drop, length_drop. f_equal; f_equal; lia.
Qed.

Lemma most_recent_last (n : nat) (l : list jsstring) :
  0 < n → list.last (most_recent n l) = list.last l.
Proof.
  intros Hn. unfold most_recent. rewrite !last_lookup, length_drop, lookup_drop.
  destruct l as [|x l]; [done|]. simpl length. f_equal. lia.
Qed.

(** With room for at least one entry, the stored list is the tail of
    everything appended so far. *)
Lemma rewinds_entries (n : nat) (news : list jsstring) :
  0 < n → ∀ (all : list jsstring) (h : t) (st : St),
  size h = Z.of_nat n → entries h = most_recent n all →
  entries (rewinds news h st).1 = most_recent n (all ++ accepted (list.last all) news).
Proof.
  intros Hn. induction news as [|e news IH]; intros all h st Hsize Hent;
    cbn [rewinds accepted].
  - by rewrite app_nil_r.
  - pose proof (rewind_entries e h st) as He.
    pose proof (rewind_size (Some e) h st) as Hs.
    destruct (rewind (Some e) h st) as [[c h'] st']. cbn [fst snd] in He, Hs.
    rewrite accepts_spec, Hent, most_recent_last in He by done.
    destruct (negb (blank e) && bool_decide (list.last all ≠ Some e)) eqn:E.
    + replace (all ++ e :: accepted (Some e) news)
        with ((all ++ [e]) ++ accepted (list.last (all ++ [e])) news)
        by (by rewrite last_snoc, <- app_assoc).
      apply IH; [congruence|].
      rewrite He, pushed_most_recent by lia.
      rewrite Hsize, Nat2Z.id, Hent. apply most_recent_snoc.
    + apply IH; congruence.
Qed.

(** Without room, nothing is ever kept. *)
Lemma rewinds_entries_0 (news : list jsstring) (h : t) (st : St) :
  size h = 0%Z → entries h = [] → entries (rewinds news h st).1 = [].
Proof.
  revert h st. induction news as [|e news IH]; intros h st Hsize Hent;
    cbn [rewinds]; [done|].
  pose proof (rewind_entries e h st) as He.
  pose proof (rewind_size (Some e) h st) as Hs.
  destruct (rewind (Some e) h st) as [[c h'] st']. cbn [fst snd] in He, Hs.
  apply IH; [congruence|]. rewrite He.
  destruct (accepts (Some e) h); [|done].
  unfold pushed. rewrite Hsize, Hent. done.
Qed.

End WithStorage.
End HistoryFacts.

Section HistoryClaims.
Import HistoryController HistorySpec HistoryFacts.
Context {St : Type} `{!Storage St}.

Lemma accepts_entries (e : jsstring) (h h' : t) :
  entries h' = entries h → accepts (Some e) h' = accepts (Some e) h.
Proof. intros H. by rewrite !accepts_spec, H. Qed.

Lemma pushed_last (e : jsstring) (h : t) :
  (0 < size h)%Z → list.last (pushed e h) = Some e.
Proof.
  intros Hs. rewrite pushed_most_recent, most_recent_last by lia. apply last_snoc.
Qed.

Lemma pushed_no_room (e : jsstring) (h : t) :
  (size h ≤ 0)%Z → pushed e h = [].
Proof.
  intros Hs. unfold pushed.
  destruct (Z.ltb_spec (size h) (Z.of_nat (length (entries h ++ [e])))) as [_|H].
  - apply drop_ge. lia.
  - rewrite length_app in H. simpl in H. lia.
Qed.

Lemma resetCursor_fresh (h : t) :
  resetCursor h = fresh (size h) (persistent h) (entries h).
Proof.
  unfold resetCursor, fresh. f_equal.
  induction (entries h) as [|x l IH]; [done|]. simpl. by rewrite IH.
Qed.

Lemma rewinds_entries_from (news : list jsstring) :
  ∀ (h : t) (st : St), (0 ≤ size h)%Z →
  entries (rewinds news h st).1
  = match accepted (list.last (entries h)) news with
    | [] => entries h
    | _ :: _ => most_recent (Z.to_nat (size h))
                  (entries h ++ accepted (list.last (entries h)) news)
    end.
Proof.
  induction news as [|e news IH]; intros h st Hs; cbn [rewinds accepted]; [done|].
  pose proof (rewind_entries e h st) as He.
  pose proof (rewind_size (Some e) h st) as Hsz.
  destruct (rewind (Some e) h st) as [[c h1] st1]. cbn [fst snd] in He, Hsz.
  rewrite accepts_spec in He.
  destruct (negb (blank e) && bool_decide (list.last (entries h) ≠ Some e)).
  - destruct (decide (size h = 0%Z)) as [H0|H0].
    + rewrite rewinds_entries_0; [|congruence|rewrite He; apply pushed_no_room; lia].
      rewrite H0. unfold most_recent. by rewrite Nat.sub_0_r, drop_all.
    + rewrite (rewinds_entries (Z.to_nat (size h)) news ltac:(lia) (entries h ++ [e]) h1 st1);
        [|lia|rewrite He; by apply pushed_most_recent].
      by rewrite last_snoc, <- app_assoc.
  - rewrite IH by lia. by rewrite He, Hsz.
Qed.

(** C3, for a history store of capacity [size >= 0] and after any sequence
    of [rewind] calls with entries.  When the stored list is within capacity
    to begin with (an empty one is), it stays within capacity and is exactly
    the [size] most recent of the entries held at the start followed by the
    entries that were appended (the non-blank ones that differ from the one
    before them), oldest evicted first.  A list longer than [size], as the
    constructor may load one, is left as it is while no entry is appended,
    and is brought within capacity in the same way by the first entry that
    is.  With [size = 2], accepting a, b, c leaves [b; c]. *)
Theorem history_capacity (h : t) (st : St) (news : list jsstring) :
  (0 ≤ size h)%Z →
  let h' := (rewinds news h st).1 in
  let appended := accepted (list.last (entries h)) news in
  ((Z.of_nat (length (entries h)) ≤ size h)%Z →
   (Z.of_nat (length (entries h')) ≤ size h)%Z
   ∧ entries h' = most_recent (Z.to_nat (size h)) (entries h ++ appended))
  ∧ (appended ≠ [] →
     (Z.of_nat (length (entries h')) ≤ size h)%Z
     ∧ entries h' = most_recent (Z.to_nat (size h)) (entries h ++ appended))
  ∧ (appended = [] → entries h' = entries h)
  ∧ match constructor 2 None st with
    | Constructed h2 =>
      entries (rewinds [js "a"; js "b"; js "c"] h2 st).1 = [js "b"; js "c"]
    | _ => False
    end.
Proof.
  intros Hsize h' appended.
  pose proof (rewinds_entries_from news h st Hsize) as Hgen. fold h' appended in Hgen.
  pose proof (most_recent_length (Z.to_nat (size h)) (entries h ++ appended)) as Hbound.
  split_and!; [| | |done].
  - intros Hlen.
    assert (entries h' = most_recent (Z.to_nat (size h)) (entries h ++ appended)) as Heq.
    { rewrite Hgen. destruct appended; [|done].
      rewrite app_nil_r. unfold most_recent.
      by replace (length (entries h) - Z.to_nat (size h)) with 0 by lia. }
    split; [|done]. rewrite Heq. lia.
  - intros Hne.
    assert (entries h' = most_recent (Z.to_nat (size h)) (entries h ++ appended)) as Heq.
    { rewrite Hgen. by destruct appended. }
    split; [|done]. rewrite Heq. lia.
  - intros Hnil. by rewrite Hgen, Hnil.
Qed.

(** C4. [rewind] appends the candidate only if it is non-blank and differs
    from the last stored entry; when it is both, it is appended (and the
    oldest entries evicted).  Accepting the same text twice in a row
    stores what accepting it once stores: "ls" twice on a new store leaves
    ["ls"]. *)
Theorem history_dedup (h : t) (st : St) (e : jsstring) :
  let '(_, h1, st1) := rewind (Some e) h st in
  (blank e = true ∨ list.last (entries h) = Some e → entries h1 = entries h)
  ∧ (blank e = false → list.last (entries h) ≠ Some e → entries h1 = pushed e h)
  ∧ entries (rewind (Some e) h1 st1).1.2 = entries h1
  ∧ match constructor 100 None st with
    | Constructed h0 =>
      let '(_, h2, st2) := rewind (Some (js "ls")) h0 st in
      entries h2 = [js "ls"] ∧ entries (rewind (Some (js "ls")) h2 st2).1.2 = [js "ls"]
    | _ => False
    end.
Proof.
  pose proof (rewind_entries e h st) as He.
  pose proof (rewind_size (Some e) h st) as Hs.
  destruct (rewind (Some e) h st) as [[c h1] st1]. cbn [fst snd] in He, Hs.
  rewrite accepts_spec in He. split_and!.
  - intros [Hb|Hl].
    + by rewrite He, Hb.
    + rewrite He, Hl, bool_decide_eq_false_2, andb_false_r; [done|]. by intros H.
  - intros Hb Hl. by rewrite He, Hb, bool_decide_eq_true_2.
  - rewrite rewind_entries.
    destruct (negb (blank e) && bool_decide (list.last (entries h) ≠ Some e)) eqn:E.
    + destruct (decide (0 < size h)%Z) as [Hpos|Hneg].
      * rewrite accepts_spec, He, pushed_last, bool_decide_eq_false_2, andb_false_r
          by (done || by intros H).
        done.
      * destruct (accepts (Some e) h1); [|done].
        rewrite He, !pushed_no_room by lia. done.
    + rewrite (accepts_entries e h h1 He), accepts_spec, E. done.
  - done.
Qed.

(** C9, amended.  Without a storage key the store starts empty.  With one,
    it starts empty when the item cannot be read, is absent, or is not
    JSON; when the item parses as a JSON array, the array is loaded as it
    is: its strings become the entries, and an array with other elements
    is stored all the same. *)
Theorem constructor_loads_persisted (size : Z) (key : jsstring) (st : St) :
  constructor size None st = Constructed (fresh size None [])
  ∧ ((∃ ex, getItem st key = Throw ex) ∨ getItem st key = Normal None
     ∨ (∃ text ex, getItem st key = Normal (Some text) ∧ JSON.parse text = Throw ex) →
     constructor size (Some key) st = Constructed (fresh size (Some key) []))
  ∧ (∀ text vs,
      getItem st key = Normal (Some text) → JSON.parse text = Normal (JSON.Array vs) →
      match as_strings vs with
      | Some es => constructor size (Some key) st = Constructed (fresh size (Some key) es)
      | None => constructor size (Some key) st = ConstructedIllTyped vs
      end).
Proof.
  split_and!.
  - done.
  - unfold constructor, loadEntries.
    intros [[ex ->]|[->|(text & ex & -> & Hp)]]; [done|done|].
    simpl. by rewrite Hp.
  - intros text vs Hg Hp. unfold constructor, loadEntries. rewrite Hg. simpl.
    rewrite Hp. destruct (as_strings vs) as [es|]; [|done].
    by rewrite resetCursor_fresh.
Qed.

End HistoryClaims.

Lemma history_capacity_witness :
  (0 ≤ HistoryController.size (HistorySpec.fresh 2 None [js "z"]))%Z
  ∧ (Z.of_nat (length (HistoryController.entries (HistorySpec.fresh 2 None [js "z"])))
     ≤ HistoryController.size (HistorySpec.fresh 2 None [js "z"]))%Z
  ∧ HistoryController.entries
      (HistorySpec.rewinds [js "a"; js "b"; js "c"; js "c"; js " "]
         (HistorySpec.fresh 2 None [js "z"]) (MemoryStorage [])).1
    = [js "b"; js "c"].
Proof.
  assert ((0 ≤ HistoryController.size (HistorySpec.fresh 2 None [js "z"]))%Z) as Hs
    by (simpl; lia).
  assert ((Z.of_nat (length (HistoryController.entries (HistorySpec.fresh 2 None [js "z"])))
           ≤ HistoryController.size (HistorySpec.fresh 2 None [js "z"]))%Z) as Hl
    by (simpl; lia).
  split_and!; [exact Hs|exact Hl|].
  exact (proj2 (proj1 (history_capacity (HistorySpec.fresh 2 None [js "z"]) (MemoryStorage [])
                         [js "a"; js "b"; js "c"; js "c"; js " "] Hs) Hl)).
Defined.

(** C3 as stated fails on a store that loaded more entries than its
    capacity: the constructor keeps all three, and [rewind] calls with a
    blank entry and with a repeat of the last one append nothing and evict
    nothing, so the list stays longer than [size] (and is not the empty
    list of appended entries). *)
Lemma history_capacity_overlong :
  let st := MemoryStorage [(js "history", JSON.stringify [js "a"; js "b"; js "c"])] in
  ∃ h, HistoryController.constructor 2 (Some (js "history")) st = Constructed h
       ∧ HistoryController.size h = 2%Z
       ∧ HistorySpec.accepted (list.last (HistoryController.entries h)) [js " "; js "c"] = []
       ∧ HistoryController.entries (HistorySpec.rewinds [js " "; js "c"] h st).1
         = [js "a"; js "b"; js "c"]
       ∧ ¬ (Z.of_nat (length (HistoryController.entries
                                (HistorySpec.rewinds [js " "; js "c"] h st).1))
            ≤ HistoryController.size h)%Z.
Proof.
  eexists. split_and!; [reflexivity|reflexivity|reflexivity|reflexivity|].
  vm_compute. intros H. by apply H.
Qed.

Lemma history_dedup_witness :
  HistoryController.entries
    (HistoryController.rewind (Some (js "ls"))
       (HistoryController.mk 100 None [js "cd"; js "ls"] [None; None; None] 2)
       (MemoryStorage [])).1.2
  = [js "cd"; js "ls"].
Proof.
  exact (proj1 (history_dedup
    (HistoryController.mk 100 None [js "cd"; js "ls"] [None; None; None] 2)
    (MemoryStorage []) (js "ls")) (or_intror eq_refl)).
Defined.

Lemma constructor_loads_persisted_witness :
  HistoryController.constructor 100 (Some (js "history"))
    (MemoryStorage [(js "history", JSON.stringify [js "ls"; js "cd .."])])
  = Constructed (HistorySpec.fresh 100 (Some (js "history")) [js "ls"; js "cd .."]).
Proof.
  exact (proj2 (proj2 (constructor_loads_persisted 100 (js "history")
    (MemoryStorage [(js "history", JSON.stringify [js "ls"; js "cd .."])])))
    (JSON.stringify [js "ls"; js "cd .."])
    [JSON.String (js "ls"); JSON.String (js "cd ..")] eq_refl eq_refl).
Defined.

(** C9 as stated fails on the stored text [[1]]: it does not parse as a JSON
    array of strings, and the store does not start empty: [entries] holds
    the parsed array. *)
Lemma constructor_loads_unchecked :
  let st := MemoryStorage [(js "history", js "[1]")] in
  (∀ es, JSON.parse (js "[1]") ≠ Normal (JSON.Array (map JSON.String es)))
  ∧ HistoryController.constructor 100 (Some (js "history")) st
    = ConstructedIllTyped [JSON.Number (js "1")]
  ∧ ¬ ∃ h, HistoryController.constructor 100 (Some (js "history")) st = Constructed h
           ∧ HistoryController.entries h = [].
Proof.
  split_and!.
  - intros [|e [|e' es]]; vm_compute; discriminate.
  - reflexivity.
  - intros (h & H & _). vm_compute in H. discriminate.
Qed.

(** C1: the write fails while an entry is accepted.  [rewind] throws; the
    entry is in [entries], and the browse cursor and the scratch slots are as
    they were: [resetCursor] has not run.  Enter on that line in the live
    phase throws in turn: the line buffer is not cleared, nothing is shown
    and the handler is not called. *)
Theorem rewind_write_failure_propagates :
  let st := FullStorage [] in
  match HistoryController.constructor 100 (Some (js "history")) st with
  | Constructed h =>
    (let '(c, h', _) := HistoryController.rewind (Some (js "ls")) h st in
     c = Throw QuotaExceededError
     ∧ HistoryController.entries h' = [js "ls"]
     ∧ HistoryController.cursor h' = 0
     ∧ HistoryController.temporaries h' = [None]
     ∧ h' ≠ HistoryController.resetCursor h')
    ∧ (let '(c, w') := TerminalController.onData [13%N]
                         (TerminalController.mk h true (js "ls") [] 2 st [] [] []) in
       c = Throw QuotaExceededError
       ∧ TerminalController.input w' = js "ls"
       ∧ TerminalController.cursor w' = 2
       ∧ TerminalController.inputPhase w' = true
       ∧ TerminalController.trace w' = [])
  | _ => False
  end.
Proof. vm_compute. by split_and!. Qed.

(** ** The controller *)

Lemma remove_last_unit {A} (a g b : list A) :
  1 ≤ length g →
  take (length a + length g - 1) (a ++ g ++ b) ++ drop (length a + length g) (a ++ g ++ b)
  = a ++ take (length g - 1) g ++ b.
Proof.
  intros Hg.
  replace (length a + length g - 1) with (length a + (length g - 1)) by lia.
  rewrite take_app_add, drop_app_add.
  rewrite take_app_le by lia. rewrite drop_app_length. by rewrite <- app_assoc.
Qed.

Section ControllerClaims.
Import TerminalController ControllerSpec.
Context {St : Type} `{!Storage St}.

Ltac ctl :=
  cbn
    [run startInputPhase suspend renderInput emit log with_line with_history
     with_inputPhase with_inputBuffer with_pending
     history inputPhase input inputBuffer cursor localStorage pending trace console
     fst snd negb] in *.

Lemma pushInput_line_ok (exec : bool) (w : t St) :
  line_ok w → line_ok (pushInput exec w).2.
Proof.
  unfold line_ok, pushInput. intros Hw.
  destruct (HistoryController.rewind _ _ _) as [[[[]|ex] h] st]; ctl; [|done].
  destruct (inputPhase w), exec; ctl; try destruct (negb _); simpl; lia.
Qed.

Lemma onEscape_line_ok (sequence : jsstring) (w : t St) :
  line_ok w → line_ok (onEscape sequence w).2.
Proof.
  unfold line_ok, onEscape. intros Hw.
  repeat case_decide;
    try destruct (HistoryController.getPrevious _ _) as [[p|] h];
    try destruct (HistoryController.getNext _ _) as [[p|] h];
    ctl;
    rewrite ?substring_prefix, ?substring_suffix, ?length_app, ?length_take, ?length_drop;
    lia.
Qed.

Lemma onChar_line_ok (char : jsstring) (w : t St) :
  line_ok w → line_ok (onChar char w).2.
Proof.
  intros Hw. unfold onChar. destruct (is_control _).
  - destruct (decide (char = [13%N])).
    { pose proof (pushInput_line_ok true w Hw). by destruct (pushInput true w). }
    destruct (decide (char = [127%N])).
    { unfold line_ok in *. case_decide; ctl; [|done].
      rewrite substring_prefix, substring_suffix, length_app, length_take, length_drop.
      lia. }
    destruct (decide (char = [3%N])); [|done].
    pose proof (pushInput_line_ok false (with_line (input w ++ js "^C") (cursor w) w)) as H.
    destruct (pushInput false _). apply H. unfold line_ok in *. ctl.
    rewrite length_app. lia.
  - unfold line_ok in *. ctl.
    rewrite substring_prefix, substring_suffix, !length_app, length_take, length_drop. lia.
Qed.

Lemma onChars_line_ok (chars : list jsstring) (b : bool) (w : t St) :
  line_ok w → line_ok (onChars chars b w).2.
Proof.
  revert b w. induction chars as [|char chars IH]; intros b w Hw; [done|].
  cbn [onChars]. pose proof (onChar_line_ok char w Hw) as H.
  destruct (onChar char w) as [[b'|ex] w']; [by apply IH|done].
Qed.

Lemma onData_line_ok (str : jsstring) (w : t St) :
  line_ok w → line_ok (onData str w).2.
Proof.
  intros Hw. unfold onData.
  match goal with |- context [let '(c, w') := ?r in _] => set (res := r) end.
  assert (line_ok res.2) as Hres.
  { subst res. case_decide; [|done]. case_decide.
    - pose proof (onEscape_line_ok (substring str 1 None) w Hw).
      by destruct (onEscape _ w).
    - by apply onChars_line_ok. }
  destruct res as [[b|ex] w']; [|done]. cbn [snd] in *.
  by destruct (negb b && inputPhase w').
Qed.

Lemma drain_line_ok (w : t St) : line_ok w → line_ok (drain w).
Proof.
  unfold drain, line_ok. intros Hw. destruct (inputBuffer w) as [|e q]; [done|].
  by destruct (execute e).
Qed.

Lemma step_line_ok (ev : event) (w : t St) : line_ok w → line_ok (step ev w).
Proof.
  intros Hw. destruct ev as [str| |i x|i]; cbn [step].
  - by apply onData_line_ok.
  - unfold onResize. by destruct (inputPhase w).
  - destruct (pending w !! i) as [[]|]; [| | |done].
    + unfold afterFlush. apply drain_line_ok. by destruct (decide _).
    + by apply drain_line_ok.
    + unfold startInputPhase. by destruct (negb _).
  - by destruct (pending w !! i) as [[]|].
Qed.

Lemma steps_line_ok (evs : list event) (w : t St) : line_ok w → line_ok (steps evs w).
Proof.
  revert w. induction evs as [|ev evs IH]; intros w Hw; [done|].
  apply IH. by apply step_line_ok.
Qed.

(** C6. [cursor <= length(input)] holds when the controller is made and
    after every operation on the line buffer: a character (inserted,
    Backspace, Enter, Ctrl+C), an escape sequence (the arrows, recall from
    history, delete-forward), a push of the line, and any sequence of
    events.  Backspace and cursor-left at position 0, cursor-right and
    delete-forward at the end of the line change nothing. *)
Theorem cursor_within_line (w : t St) :
  line_ok w →
  (∀ h (st : St), line_ok (init h st))
  ∧ (∀ char, line_ok (onChar char w).2)
  ∧ (∀ sequence, line_ok (onEscape sequence w).2)
  ∧ (∀ exec, line_ok (pushInput exec w).2)
  ∧ (∀ evs, line_ok (steps evs w))
  ∧ (cursor w = 0 →
     onChar [127%N] w = (Normal false, w) ∧ onEscape (js "[D") w = (false, w))
  ∧ (cursor w = length (input w) →
     onEscape (js "[C") w = (false, w) ∧ onEscape (js "[3~") w = (false, w)).
Proof.
  intros Hw. split_and!.
  - intros h st. unfold init, line_ok. ctl. simpl. lia.
  - intros char. by apply onChar_line_ok.
  - intros sequence. by apply onEscape_line_ok.
  - intros exec. by apply pushInput_line_ok.
  - intros evs. by apply steps_line_ok.
  - intros H0. unfold onChar, onEscape. simpl. by rewrite H0.
  - intros Hend. unfold onEscape. simpl.
    rewrite !decide_False by lia. done.
Qed.

(** C10. On an Up or Down arrow, a value returned by the history store
    replaces the line buffer and the cursor goes to its end; when the
    store returns [undefined], buffer and cursor stay as they are.  It
    returns [undefined] for Up at the oldest position, for both arrows on
    an empty history, and for Down at the live position. *)
Theorem recall_replaces_line (w : t St) :
  let h := history w in
  let w_up := (onEscape (js "[A") w).2 in
  let w_down := (onEscape (js "[B") w).2 in
  match (HistoryController.getPrevious (input w) h).1 with
  | Some p => input w_up = p ∧ cursor w_up = length p
  | None => input w_up = input w ∧ cursor w_up = cursor w
  end
  ∧ match (HistoryController.getNext (input w) h).1 with
    | Some n => input w_down = n ∧ cursor w_down = length n
    | None => input w_down = input w ∧ cursor w_down = cursor w
    end
  ∧ (HistoryController.cursor h = 0 →
     (HistoryController.getPrevious (input w) h).1 = None)
  ∧ (HistorySpec.history_ok h → HistoryController.entries h = [] →
     (HistoryController.getPrevious (input w) h).1 = None
     ∧ (HistoryController.getNext (input w) h).1 = None)
  ∧ (HistorySpec.history_ok h →
     HistoryController.cursor h = length (HistoryController.entries h) →
     (HistoryController.getNext (input w) h).1 = None).
Proof.
  intros h w_up w_down. subst w_up w_down. assert (h = history w) as Hh by done; clearbody h.
  assert (HistoryController.cursor h = 0 →
          (HistoryController.getPrevious (input w) h).1 = None) as Hup.
  { intros H0. unfold HistoryController.getPrevious. cbn [fst]. by rewrite H0. }
  assert (HistorySpec.history_ok h →
          HistoryController.cursor h = length (HistoryController.entries h) →
          (HistoryController.getNext (input w) h).1 = None) as Hdown.
  { intros [Hc Hl] Hlive. unfold HistoryController.getNext. cbn [fst].
    replace (Z.of_nat (HistoryController.cursor h) + 1)%Z
      with (Z.of_nat (S (HistoryController.cursor h))) by lia.
    rewrite js_get_set_ne by lia. rewrite js_get_nat.
    rewrite lookup_ge_None_2 by lia.
    unfold js_nth. destruct (Z.ltb_spec (Z.of_nat (S (HistoryController.cursor h))) 0); [lia|].
    rewrite lookup_ge_None_2 by lia. done. }
  split_and!.
  - unfold onEscape. rewrite decide_True by done. rewrite <- Hh.
    by destruct (HistoryController.getPrevious (input w) h) as [[p|] h'].
  - unfold onEscape. rewrite decide_False, decide_True by done. rewrite <- Hh.
    by destruct (HistoryController.getNext (input w) h) as [[p|] h'].
  - done.
  - intros Hok Hemp. pose proof Hok as [Hc Hl]. rewrite Hemp in Hc. simpl in Hc. split.
    + apply Hup. lia.
    + apply Hdown; [done|]. rewrite Hemp. simpl. lia.
  - done.
Qed.

(** C2: a glyph of two or more code units typed at the cursor moves the
    cursor by its whole length; a Backspace right after removes its last
    code unit only, so neither the line nor the cursor is what it was
    before the glyph. *)
Theorem backspace_after_glyph (w : t St) (glyph : jsstring) :
  line_ok w → is_control (charCodeAt glyph 0) = false → 2 ≤ length glyph →
  let w1 := (onChar glyph w).2 in
  let w2 := (onChar [127%N] w1).2 in
  cursor w1 = cursor w + length glyph
  ∧ input w1 = take (cursor w) (input w) ++ glyph ++ drop (cursor w) (input w)
  ∧ input w2 = take (cursor w) (input w) ++ take (length glyph - 1) glyph
               ++ drop (cursor w) (input w)
  ∧ cursor w2 = cursor w + length glyph - 1
  ∧ input w2 ≠ input w
  ∧ cursor w2 ≠ cursor w.
Proof.
  intros Hw Hc Hlen w1 w2. unfold line_ok in Hw.
  assert (onChar glyph w
          = (Normal false,
             with_line (take (cursor w) (input w) ++ glyph ++ drop (cursor w) (input w))
                       (cursor w + length glyph) w)) as E1.
  { unfold onChar. by rewrite Hc, substring_prefix, substring_suffix. }
  assert (input w2 = take (cursor w) (input w) ++ take (length glyph - 1) glyph
                     ++ drop (cursor w) (input w)
          ∧ cursor w2 = cursor w + length glyph - 1) as [E2 E3].
  { subst w2 w1. rewrite E1. cbn [snd]. unfold onChar.
    change (is_control (charCodeAt [127%N] 0)) with true. cbv iota.
    rewrite decide_False, decide_True by done. cbn [snd].
    rewrite decide_True by (ctl; lia). ctl. split; [|done].
    rewrite substring_prefix, substring_suffix.
    pose proof (remove_last_unit (take (cursor w) (input w)) glyph
                  (drop (cursor w) (input w))) as R.
    rewrite length_take in R.
    replace (min (cursor w) (length (input w))) with (cursor w) in R by lia.
    apply R. lia. }
  subst w1. rewrite E1. cbn [snd]. ctl. split_and!; try done.
  - rewrite E2. intros Heq. apply (f_equal length) in Heq.
    rewrite !length_app, !length_take, length_drop in Heq. lia.
  - lia.
Qed.

(** C7. Ctrl+C in the live phase: the line is finished on the terminal as
    its text followed by ^C; the handler is not called; [rewind] is called
    without an entry, so the stored entries and the storage are as before,
    the browse cursor is at the live position and every scratch slot is
    empty; the line buffer is cleared and the controller starts to enter
    the input phase again. *)
Theorem ctrl_c_discards (w : t St) :
  inputPhase w = true →
  let line := input w ++ js "^C" in
  let '(c, w') := onChar [3%N] w in
  c = Normal true
  ∧ trace w' = trace w ++ [Render false true (Live (take (cursor w) line)
                                                    (drop (cursor w) line));
                           Write empty_string]
  ∧ (∀ x, RunHandler x ∈ trace w' → RunHandler x ∈ trace w)
  ∧ history w' = HistoryController.resetCursor (history w)
  ∧ HistoryController.entries (history w') = HistoryController.entries (history w)
  ∧ HistoryController.cursor (history w') = length (HistoryController.entries (history w))
  ∧ HistoryController.temporaries (history w')
    = replicate (S (length (HistoryController.entries (history w)))) None
  ∧ localStorage w' = localStorage w
  ∧ inputBuffer w' = inputBuffer w
  ∧ input w' = empty_string ∧ cursor w' = 0
  ∧ inputPhase w' = false
  ∧ pending w' = pending w ++ [AwaitFlush].
Proof.
  intros Hlive line. unfold onChar.
  change (is_control (charCodeAt [3%N] 0)) with true. cbv iota.
  rewrite !decide_False, decide_True by done.
  unfold pushInput. cbn [HistoryController.rewind]. ctl. rewrite Hlive. ctl.
  rewrite substring_prefix, substring_suffix.
  split_and!; try done.
  - by rewrite <- app_assoc.
  - intros x Hx. rewrite !elem_of_app in Hx. destruct Hx as [[Hx|Hx]|Hx]; [done| |].
    + apply list_elem_of_singleton in Hx. discriminate.
    + apply list_elem_of_singleton in Hx. discriminate.
  - by rewrite resetCursor_fresh.
Qed.

(** *** Browsing the history *)

Lemma up_history (w : t St) :
  history (up w) = (HistoryController.getPrevious (input w) (history w)).2.
Proof.
  unfold up, onEscape. rewrite decide_True by done.
  by destruct (HistoryController.getPrevious (input w) (history w)) as [[p|] h].
Qed.

Lemma down_history (w : t St) :
  history (down w) = (HistoryController.getNext (input w) (history w)).2.
Proof.
  unfold down, onEscape. rewrite decide_False, decide_True by done.
  by destruct (HistoryController.getNext (input w) (history w)) as [[p|] h].
Qed.

Lemma down_input (w : t St) :
  input (down w)
  = default (input w) (HistoryController.getNext (input w) (history w)).1.
Proof.
  unfold down, onEscape. rewrite decide_False, decide_True by done.
  by destruct (HistoryController.getNext (input w) (history w)) as [[p|] h].
Qed.

(** Going up leaves each line in the scratch slot of the position it is
    left at, and touches no slot above the starting position. *)
Lemma browse_up_scratch (edits : list (jsstring → jsstring)) :
  ∀ w : t St,
  length edits ≤ HistoryController.cursor (history w) →
  let '(behind, w') := browse_up edits w in
  HistoryController.cursor (history w')
  = HistoryController.cursor (history w) - length edits
  ∧ HistoryController.entries (history w') = HistoryController.entries (history w)
  ∧ length behind = length edits
  ∧ (edits ≠ [] → head behind = Some (input w))
  ∧ (edits = [] → w' = w)
  ∧ (∀ j, j < length edits →
       js_get (HistoryController.temporaries (history w'))
              (Z.of_nat (HistoryController.cursor (history w) - j))
       = behind !! j)
  ∧ (∀ i, HistoryController.cursor (history w) < i →
       js_get (HistoryController.temporaries (history w')) (Z.of_nat i)
       = js_get (HistoryController.temporaries (history w)) (Z.of_nat i)).
Proof.
  induction edits as [|f fs IH]; intros w Hk.
  - cbn [browse_up length]. split_and!; try done; [lia|]. intros j Hj. lia.
  - cbn [browse_up]. cbn [length] in Hk.
    set (w1 := edit f (up w)).
    assert (history w1 = (HistoryController.getPrevious (input w) (history w)).2) as Hh.
    { subst w1. unfold edit. cbn [with_line history]. apply up_history. }
    assert (HistoryController.cursor (history w1)
            = HistoryController.cursor (history w) - 1) as Hc.
    { rewrite Hh. cbn. by rewrite decide_True by lia. }
    specialize (IH w1 ltac:(lia)). destruct (browse_up fs w1) as [behind w'].
    destruct IH as (IHc & IHe & IHl & _ & _ & IHs & IHa).
    split_and!.
    + rewrite IHc, Hc. cbn [length]. lia.
    + rewrite IHe, Hh. done.
    + cbn [length]. lia.
    + done.
    + done.
    + intros [|j] Hj; cbn [length] in Hj.
      * rewrite Nat.sub_0_r, IHa by lia. rewrite Hh. cbn. apply js_get_set_eq.
      * cbn [lookup list_lookup]. etrans; [|apply IHs; lia]. rewrite Hc. do 2 f_equal. lia.
    + intros i Hi. rewrite IHa by lia. rewrite Hh. cbn. apply js_get_set_ne. lia.
Qed.

(** Going down shows what the scratch slots above the position hold. *)
Lemma browse_down_scratch (vs : list jsstring) :
  ∀ w : t St,
  HistoryController.cursor (history w) + length vs
    ≤ length (HistoryController.entries (history w)) →
  (∀ i, i < length vs →
     js_get (HistoryController.temporaries (history w))
            (Z.of_nat (HistoryController.cursor (history w) + 1 + i))
     = vs !! i) →
  let '(seen, w') := browse_down (length vs) w in
  seen = vs
  ∧ input w' = default (input w) (list.last vs)
  ∧ HistoryController.cursor (history w')
    = HistoryController.cursor (history w) + length vs
  ∧ HistoryController.entries (history w') = HistoryController.entries (history w).
Proof.
  induction vs as [|v vs IH]; intros w Hk Hs.
  - cbn [browse_down length]. split_and!; [done|done|lia|done].
  - cbn [length browse_down] in *.
    assert (HistoryController.cursor (history (down w))
            = HistoryController.cursor (history w) + 1) as Hc.
    { rewrite down_history. cbn. by rewrite decide_True by lia. }
    assert (input (down w) = v) as Hi.
    { rewrite down_input. cbn.
      replace (Z.of_nat (HistoryController.cursor (history w)) + 1)%Z
        with (Z.of_nat (HistoryController.cursor (history w) + 1)) by lia.
      rewrite js_get_set_ne by lia.
      specialize (Hs 0 ltac:(lia)). rewrite Nat.add_0_r in Hs. by rewrite Hs. }
    specialize (IH (down w)). destruct (browse_down (length vs) (down w)) as [seen w'].
    destruct IH as (IHs & IHi & IHc & IHe).
    + rewrite Hc, down_history. cbn. lia.
    + intros i Hlt. rewrite Hc, down_history. cbn. rewrite js_get_set_ne by lia.
      specialize (Hs (S i) ltac:(lia)). cbn [lookup list_lookup] in Hs.
      etrans; [|exact Hs]. do 2 f_equal. lia.
    + split_and!.
      * by rewrite IHs, Hi.
      * rewrite IHi, Hi. by destruct vs as [|v' vs] using rev_ind; rewrite ?last_snoc,
          ?last_cons, ?last_snoc.
      * lia.
      * by rewrite IHe, down_history.
Qed.

(** C5. With the browse cursor at the live position, [k] Up arrows and
    then [k] Down arrows ([k] at most the number of entries) bring the
    line buffer back to what it was, a blank line included; whatever edit
    was made after an Up arrow, the way down shows the lines as they were
    left, last left first. *)
Theorem browse_round_trip (w : t St) (edits : list (jsstring → jsstring)) :
  HistoryController.cursor (history w) = length (HistoryController.entries (history w)) →
  length edits ≤ length (HistoryController.entries (history w)) →
  let '(behind, w1) := browse_up edits w in
  let '(seen, w2) := browse_down (length edits) w1 in
  seen = reverse behind
  ∧ input w2 = input w
  ∧ (input w = empty_string → input w2 = empty_string)
  ∧ HistoryController.cursor (history w2)
    = length (HistoryController.entries (history w2)).
Proof.
  intros Hlive Hk. pose proof (browse_up_scratch edits w ltac:(lia)) as Hup.
  destruct (browse_up edits w) as [behind w1].
  destruct Hup as (Hc & He & Hl & Hhd & Hnil & Hs & _).
  pose proof (browse_down_scratch (reverse behind) w1) as Hdown.
  rewrite length_reverse, Hl in Hdown.
  destruct (browse_down (length edits) w1) as [seen w2].
  destruct Hdown as (Hseen & Hin & Hc2 & He2).
  - rewrite Hc, He. lia.
  - intros i Hi. rewrite reverse_lookup by lia. rewrite <- Hs by lia.
    rewrite Hc. do 2 f_equal. lia.
  - assert (input w2 = input w) as Hback.
    { rewrite Hin, last_reverse. destruct behind as [|b behind].
      - destruct edits; [|done]. by rewrite (Hnil eq_refl).
      - destruct edits; [done|]. specialize (Hhd ltac:(done)). cbn in Hhd. cbn.
        congruence. }
    split_and!; [done|done|congruence|].
    rewrite Hc2, Hc, He2, He. lia.
Qed.

(** *** Phases and the queue *)

Lemma quiet_refl (w : t St) : inputPhase w = false → quiet w w.
Proof. by intros H. Qed.

Lemma quiet_trans (w1 w2 w3 : t St) : quiet w1 w2 → quiet w2 w3 → quiet w1 w3.
Proof.
  intros (_ & Hp & Ht & Hq) (Hi' & Hp' & Ht' & Hq').
  split_and!; [done|congruence|congruence|by etrans].
Qed.

(** Out of the live phase a push only queues the line. *)
Lemma pushInput_queues (exec : bool) (w : t St) :
  inputPhase w = false →
  quiet w (pushInput exec w).2
  ∧ match (pushInput exec w).1 with
    | Normal _ => inputBuffer (pushInput exec w).2 = inputBuffer w ++ [Entry (input w) exec]
    | Throw _ => inputBuffer (pushInput exec w).2 = inputBuffer w
    end
  ∧ (HistoryController.persistent (history w) = None →
     (pushInput exec w).1 = Normal ()
     ∧ HistoryController.persistent (history (pushInput exec w).2) = None).
Proof.
  intros Hlive. unfold pushInput, quiet.
  destruct (HistoryController.rewind (if exec then Some (input w) else None)
              (history w) (localStorage w)) as [[c h] st] eqn:E.
  assert (HistoryController.persistent (history w) = None →
          c = Normal () ∧ HistoryController.persistent h = None) as Hnone.
  { intros Hp. unfold HistoryController.rewind in E. destruct exec.
    - destruct (HistoryController.accepts _ _); cbn in E; rewrite ?Hp in E;
        by injection E as <- <- _.
    - by injection E as <- <- _. }
  destruct c as [[]|ex]; ctl; rewrite ?Hlive; ctl.
  - split_and!; try done; by apply prefix_app_r.
  - split_and!; try done; intros Hp; by destruct (Hnone Hp).
Qed.

Lemma onEscape_quiet (sequence : jsstring) (w : t St) :
  inputPhase w = false → quiet w (onEscape sequence w).2.
Proof.
  intros Hlive. unfold onEscape, quiet.
  repeat case_decide;
    try destruct (HistoryController.getPrevious _ _) as [[p|] h];
    try destruct (HistoryController.getNext _ _) as [[p|] h];
    by ctl.
Qed.

Lemma onChar_quiet (char : jsstring) (w : t St) :
  inputPhase w = false → quiet w (onChar char w).2.
Proof.
  intros Hlive. unfold onChar. destruct (is_control _).
  - destruct (decide (char = [13%N])).
    { pose proof (pushInput_queues true w Hlive) as [H _]. by destruct (pushInput true w). }
    destruct (decide (char = [127%N])).
    { case_decide; by ctl. }
    destruct (decide (char = [3%N])); [|done].
    pose proof (pushInput_queues false (with_line (input w ++ js "^C") (cursor w) w) Hlive)
      as [H _].
    by destruct (pushInput false _).
  - by ctl.
Qed.

Lemma onChars_quiet (chars : list jsstring) (b : bool) (w : t St) :
  inputPhase w = false → quiet w (onChars chars b w).2.
Proof.
  revert b w. induction chars as [|char chars IH]; intros b w Hlive; [done|].
  cbn [onChars]. pose proof (onChar_quiet char w Hlive) as H.
  destruct (onChar char w) as [[b'|ex] w']; [|done].
  eapply quiet_trans; [done|]. apply IH. by destruct H.
Qed.

Lemma onData_quiet (str : jsstring) (w : t St) :
  inputPhase w = false → quiet w (onData str w).2.
Proof.
  intros Hlive. unfold onData.
  match goal with |- context [let '(c, w') := ?r in _] => set (res := r) end.
  assert (quiet w res.2) as Hres.
  { subst res. case_decide; [|done]. case_decide.
    - pose proof (onEscape_quiet (substring str 1 None) w Hlive).
      by destruct (onEscape _ w).
    - by apply onChars_quiet. }
  destruct res as [[b|ex] w']; [|done]. cbn [snd] in *.
  pose proof Hres as (Hi & _). by rewrite Hi, andb_false_r.
Qed.




Lemma pushInput_phase_ok (exec : bool) (w : t St) :
  phase_ok w → phase_ok (pushInput exec w).2.
Proof.
  unfold phase_ok. intros Hw. destruct (inputPhase w) eqn:Hlive.
  - destruct Hw as [Hq Hp]. unfold pushInput.
    destruct (HistoryController.rewind _ (history w) (localStorage w)) as [[[[]|ex] h] st];
      ctl; rewrite ?Hlive; ctl; [|done].
    destruct exec; ctl; by rewrite Hp.
  - pose proof (pushInput_queues exec w Hlive) as ((-> & -> & _) & _). done.
Qed.

Lemma onEscape_phase_ok (sequence : jsstring) (w : t St) :
  phase_ok w → phase_ok (onEscape sequence w).2.
Proof.
  unfold phase_ok, onEscape. intros Hw.
  repeat case_decide;
    try destruct (HistoryController.getPrevious _ _) as [[p|] h];
    try destruct (HistoryController.getNext _ _) as [[p|] h];
    by ctl.
Qed.

Lemma onChar_phase_ok (char : jsstring) (w : t St) :
  phase_ok w → phase_ok (onChar char w).2.
Proof.
  intros Hw. unfold onChar. destruct (is_control _).
  - destruct (decide (char = [13%N])).
    { pose proof (pushInput_phase_ok true w Hw). by destruct (pushInput true w). }
    destruct (decide (char = [127%N])).
    { case_decide; by ctl. }
    destruct (decide (char = [3%N])); [|done].
    pose proof (pushInput_phase_ok false (with_line (input w ++ js "^C") (cursor w) w) Hw).
    by destruct (pushInput false _).
  - by ctl.
Qed.

Lemma onChars_phase_ok (chars : list jsstring) (b : bool) (w : t St) :
  phase_ok w → phase_ok (onChars chars b w).2.
Proof.
  revert b w. induction chars as [|char chars IH]; intros b w Hw; [done|].
  cbn [onChars]. pose proof (onChar_phase_ok char w Hw) as H.
  destruct (onChar char w) as [[b'|ex] w']; [by apply IH|done].
Qed.

Lemma onData_phase_ok (str : jsstring) (w : t St) :
  phase_ok w → phase_ok (onData str w).2.
Proof.
  intros Hw. unfold onData.
  match goal with |- context [let '(c, w') := ?r in _] => set (res := r) end.
  assert (phase_ok res.2) as Hres.
  { subst res. case_decide; [|done]. case_decide.
    - pose proof (onEscape_phase_ok (substring str 1 None) w Hw).
      by destruct (onEscape _ w).
    - by apply onChars_phase_ok. }
  destruct res as [[b|ex] w']; [|done]. cbn [snd] in *.
  by destruct (negb b && inputPhase w').
Qed.

Lemma drain_phase_ok (w : t St) :
  inputPhase w = false → pending w = [] → phase_ok (drain w).
Proof.
  intros Hlive Hp. unfold phase_ok, drain. destruct (inputBuffer w) as [|e q] eqn:Hq.
  - ctl. by rewrite Hq.
  - destruct (execute e); ctl; by rewrite Hlive, Hp.
Qed.

(** The live phase has an empty queue and nothing suspended; out of it at
    most one continuation is suspended: one [pending] task at a time is
    all the event loop ever holds. *)
Lemma phase_ok_step (ev : event) (w : t St) : phase_ok w → phase_ok (step ev w).
Proof.
  intros Hw. destruct ev as [str| |i x|i]; cbn [step].
  - by apply onData_phase_ok.
  - unfold onResize, phase_ok in *. destruct (inputPhase w) eqn:Hlive; ctl; by rewrite Hlive.
  - unfold phase_ok in Hw. destruct (inputPhase w) eqn:Hlive.
    { destruct Hw as [Hq Hp]. rewrite Hp, lookup_nil. unfold phase_ok. by rewrite Hlive. }
    destruct (pending w) as [|k [|k' p]] eqn:Hp.
    + rewrite lookup_nil. unfold phase_ok. by rewrite Hlive, Hp.
    + destruct (decide (i = 0)) as [->|Hi].
      2: { rewrite lookup_ge_None_2 by (cbn; lia). unfold phase_ok. by rewrite Hlive, Hp. }
      cbn [lookup list_lookup].
      change (delete 0 [k]) with (@nil Task). destruct k.
      * unfold afterFlush. case_decide; by apply drain_phase_ok.
      * by apply drain_phase_ok.
      * unfold phase_ok, startInputPhase. ctl. rewrite Hlive. ctl. rewrite Hlive. cbn. lia.
    + cbn in Hw. lia.
  - unfold phase_ok in *. destruct (inputPhase w) eqn:Hlive.
    { destruct Hw as [Hq Hp]. rewrite Hp, lookup_nil. by rewrite Hlive. }
    destruct (pending w !! i) as [[]|] eqn:Hi; rewrite ?Hlive; try done.
    ctl. rewrite Hlive, length_delete by done. lia.
Qed.

Lemma phase_ok_init (h : HistoryController.t) (st : St) : phase_ok (init h st).
Proof. unfold phase_ok, init. ctl. cbn. lia. Qed.


End ControllerClaims.


(** ** The JSON round trip *)

Module JSONRoundTrip.
Import JSON.

Lemma hex_round (d : N) : (d < 16)%N → hex_digit (hex_char d) = Some d.
Proof.
  intros H. destruct d as [|p]; [done|].
  do 5 (try destruct p as [p|p|]); try reflexivity; lia.
Qed.

Lemma unicode_unescape (c : N) :
  (c < 65536)%N →
  ((c / 4096 mod 16) * 4096 + (c / 256 mod 16) * 256 + (c / 16 mod 16) * 16 + c mod 16 = c)%N.
Proof.
  intros H.
  pose proof (N.div_mod' c 16). pose proof (N.div_mod' (c / 16) 16).
  pose proof (N.div_mod' (c / 16 / 16) 16).
  rewrite !N.Div0.div_div in *. change (16 * 16)%N with 256%N in *.
  change (256 * 16)%N with 4096%N in *.
  assert (c / 4096 < 16)%N by (apply N.Div0.div_lt_upper_bound; lia).
  rewrite (N.mod_small (c / 4096)) by done.
  pose proof (N.div_mod' (c / 4096) 16). lia.
Qed.

Lemma parse_escape (c : N) (x : jsstring) :
  (c < 65536)%N →
  parse_chars (unicode_escape c ++ x)
  = match parse_chars x with Some (t, r) => Some (c :: t, r) | None => None end.
Proof.
  intros H. unfold unicode_escape. cbn [app]. cbn [parse_chars].
  change (92 =? 34)%N with false. change (92 =? 92)%N with true.
  change (117 =? 117)%N with true. cbv iota.
  rewrite !hex_round by (apply N.mod_lt; done). by rewrite unicode_unescape.
Qed.

Lemma parse_plain (c : N) (x : jsstring) :
  (c =? 34)%N = false → (c =? 92)%N = false → (c <? 32)%N = false →
  parse_chars (c :: x)
  = match parse_chars x with Some (t, r) => Some (c :: t, r) | None => None end.
Proof. intros E1 E2 E3. cbn [parse_chars]. by rewrite E1, E2, E3. Qed.

Lemma parse_quote_chars (s : jsstring) :
  ∀ rest, well_formed s → parse_chars (quote_chars s ++ 34%N :: rest) = Some (s, rest).
Proof.
  unfold well_formed.
  remember (length s) as n eqn:Hn. assert (length s ≤ n) as Hle by lia. clear Hn.
  revert s Hle. induction n as [|n IH]; intros [|c s] Hle rest Hwf; simpl in Hle; try lia;
    try reflexivity.
  inversion_clear Hwf as [|? ? Hc Hs].
  assert (∀ s', length s' ≤ n → Forall (λ c, (c < 65536)%N) s' →
          parse_chars (quote_chars s' ++ 34%N :: rest) = Some (s', rest)) as IH'
    by (intros; by apply IH).
  cbn [quote_chars].
  destruct (c =? 8)%N eqn:E8; [apply N.eqb_eq in E8 as ->; cbn; by rewrite IH' by (done || lia)|].
  destruct (c =? 9)%N eqn:E9; [apply N.eqb_eq in E9 as ->; cbn; by rewrite IH' by (done || lia)|].
  destruct (c =? 10)%N eqn:E10; [apply N.eqb_eq in E10 as ->; cbn; by rewrite IH' by (done || lia)|].
  destruct (c =? 12)%N eqn:E12; [apply N.eqb_eq in E12 as ->; cbn; by rewrite IH' by (done || lia)|].
  destruct (c =? 13)%N eqn:E13; [apply N.eqb_eq in E13 as ->; cbn; by rewrite IH' by (done || lia)|].
  destruct (c =? 34)%N eqn:E34; [apply N.eqb_eq in E34 as ->; cbn; by rewrite IH' by (done || lia)|].
  destruct (c =? 92)%N eqn:E92; [apply N.eqb_eq in E92 as ->; cbn; by rewrite IH' by (done || lia)|].
  destruct (c <? 32)%N eqn:E32.
  { rewrite <- app_assoc, parse_escape, IH' by (done || lia). done. }
  destruct (is_high_surrogate c) eqn:Eh.
  { destruct s as [|d s].
    - rewrite parse_escape by done. reflexivity.
    - destruct (is_low_surrogate d) eqn:El.
      + inversion_clear Hs as [|? ? Hd Hs'].
        assert ((d =? 34)%N = false ∧ (d =? 92)%N = false ∧ (d <? 32)%N = false)
          as (D1 & D2 & D3).
        { unfold is_low_surrogate in El. apply andb_true_iff in El as [El _].
          apply N.leb_le in El. split_and!; [apply N.eqb_neq|apply N.eqb_neq|apply N.ltb_ge]; lia. }
        cbn [app]. rewrite parse_plain, parse_plain, IH' by (done || simpl in *; lia). done.
      + rewrite <- app_assoc, parse_escape, IH' by (done || lia). done. }
  destruct (is_low_surrogate c) eqn:El.
  { rewrite <- app_assoc, parse_escape, IH' by (done || lia). done. }
  cbn [app]. rewrite parse_plain, IH' by (done || lia). done.
Qed.

Lemma parse_quoted (e rest : jsstring) (f : nat) :
  well_formed e → parse_value (S f) (quote e ++ rest) = Some (String e, rest).
Proof.
  intros He. unfold quote. cbn [app parse_value].
  change (34 =? 110)%N with false. change (34 =? 116)%N with false.
  change (34 =? 102)%N with false. change (34 =? 34)%N with true. cbv iota.
  rewrite <- app_assoc. cbn [app]. by rewrite parse_quote_chars.
Qed.

Lemma skip_ws_quoted (e rest : jsstring) : skip_ws (quote e ++ rest) = quote e ++ rest.
Proof. reflexivity. Qed.

Lemma parse_elements_unfold (f : nat) (s : jsstring) :
  parse_elements (S f) s
  = match parse_value f s with
    | None => None
    | Some (v, r) =>
      match skip_ws r with
      | x :: r' =>
        if (x =? 44)%N then
          match parse_elements f (skip_ws r') with
          | Some (vs, r'') => Some (v :: vs, r'')
          | None => None
          end
        else if (x =? 93)%N then Some ([v], r')
        else None
      | [] => None
      end
    end.
Proof. reflexivity. Qed.

Lemma parse_joined (es : list jsstring) :
  ∀ (e rest : jsstring) (f : nat),
  Forall well_formed (e :: es) → length es < f →
  parse_elements (S f) (join_commas (map quote (e :: es)) ++ 93%N :: rest)
  = Some (String <$> e :: es, rest).
Proof.
  induction es as [|e' es IH]; intros e rest f Hwf Hf; inversion_clear Hwf as [|? ? He Hes].
  - cbn [map join_commas]. rewrite parse_elements_unfold. destruct f as [|f]; [lia|].
    rewrite parse_quoted by done. reflexivity.
  - cbn [length] in Hf. destruct f as [|f]; [lia|].
    change (join_commas (map quote (e :: e' :: es)))
      with (quote e ++ 44%N :: join_commas (map quote (e' :: es))).
    rewrite <- app_assoc, parse_elements_unfold.
    rewrite parse_quoted by done. cbn [app skip_ws].
    change (is_ws 44) with false. cbv iota. change (44 =? 44)%N with true. cbv iota.
    replace (skip_ws (join_commas (map quote (e' :: es)) ++ 93%N :: rest))
      with (join_commas (map quote (e' :: es)) ++ 93%N :: rest)
      by (by destruct es).
    rewrite IH by (done || lia). reflexivity.
Qed.

Lemma joined_head (e : jsstring) (es : list jsstring) (rest : jsstring) :
  ∃ x, join_commas (map quote (e :: es)) ++ rest = 34%N :: x.
Proof. destruct es; cbn [map join_commas]; unfold quote at 1; cbn [app]; eauto. Qed.

(** What [JSON.stringify] writes for an array of strings, [JSON.parse] reads
    back as that array. *)
Lemma parse_stringify (es : list jsstring) :
  Forall well_formed es → parse (stringify es) = Normal (Array (String <$> es)).
Proof.
  intros Hwf. unfold parse.
  assert (parse_value (length es + 2) (skip_ws (stringify es))
          = Some (Array (String <$> es), [])) as H.
  { unfold stringify. destruct es as [|e es]; [reflexivity|].
    replace (length (e :: es) + 2) with (S (S (S (length es)))) by (simpl; lia).
    pose proof (parse_joined es e [] (S (length es)) Hwf ltac:(lia)) as Hj.
    destruct (joined_head e es [93%N]) as [x Hx]. rewrite Hx in *.
    cbn [skip_ws]. change (is_ws 91) with false. cbv iota. cbn [parse_value].
    change (91 =? 110)%N with false. change (91 =? 116)%N with false.
    change (91 =? 102)%N with false. change (91 =? 34)%N with false.
    change (91 =? 91)%N with true. cbv iota.
    cbn [skip_ws]. change (is_ws 34) with false. cbv iota.
    change (34 =? 93)%N with false. cbv iota. by rewrite Hj. }
  pose proof (JSONFacts.skip_ws_length (stringify es)) as Hs.
  apply JSONFacts.parse_fuel in H as [_ H]. rewrite H by (simpl; lia). reflexivity.
Qed.

End JSONRoundTrip.

(** ** More on the history store *)

Section HistoryExtras.
Import HistoryController HistorySpec HistoryFacts HistoryBrowsing.
Context {St : Type} `{!Storage St}.

Lemma js_set_length {A} (arr : list (option A)) (i : nat) (v : A) :
  i < length arr → length (js_set arr i v) = length arr.
Proof. intros H. unfold js_set. rewrite decide_True by done. apply length_insert. Qed.

Lemma resetCursor_browse_ok (h : t) : browse_ok (resetCursor h).
Proof.
  split; [split|]; cbn.
  - lia.
  - rewrite length_app, length_map. simpl. lia.
  - intros i Hi. lia.
Qed.

Lemma getPrevious_browse_ok (current : jsstring) (h : t) :
  browse_ok h → browse_ok (getPrevious current h).2.
Proof.
  intros [[Hc Hl] Hs]. split; [split|]; cbn.
  - case_decide; lia.
  - rewrite js_set_length; lia.
  - intros i Hi. destruct (decide (i = cursor h)) as [->|Hne].
    + by rewrite js_get_set_eq.
    + rewrite js_get_set_ne by done. apply Hs. case_decide; lia.
Qed.

Lemma getNext_browse_ok (current : jsstring) (h : t) :
  browse_ok h → browse_ok (getNext current h).2.
Proof.
  intros [[Hc Hl] Hs]. split; [split|]; cbn.
  - case_decide; lia.
  - rewrite js_set_length; lia.
  - intros i Hi. rewrite js_get_set_ne by (case_decide; lia). apply Hs. case_decide; lia.
Qed.

Lemma getPrevious_persistent (current : jsstring) (h : t) :
  persistent (getPrevious current h).2 = persistent h.
Proof. unfold getPrevious. by case_decide. Qed.

Lemma getNext_persistent (current : jsstring) (h : t) :
  persistent (getNext current h).2 = persistent h.
Proof. unfold getNext. by case_decide. Qed.

Lemma rewind_browse_ok (o : option jsstring) (h : t) (st : St) :
  (rewind o h st).1.1 = Normal () → browse_ok (rewind o h st).1.2.
Proof.
  unfold rewind. destruct o as [e|]; [|intros _; apply resetCursor_browse_ok].
  destruct (accepts (Some e) h); [|intros _; apply resetCursor_browse_ok].
  cbn. destruct (persistent h); [|intros _; apply resetCursor_browse_ok].
  destruct (setItem _ _ _); [intros _; apply resetCursor_browse_ok|done].
Qed.

(** X1. Browsing and rewinding keep the browse cursor inside the history,
    one scratch slot for each position, and a scratch edit in every slot
    above the cursor; browsing changes neither the entries nor the
    capacity.  ([rewind] keeps this when it returns; when the storage write
    throws, the scratch slots are left behind the entries.) *)
Theorem browse_ok_kept (h : t) (current : jsstring) (o : option jsstring) (st : St) :
  browse_ok h →
  let up := (getPrevious current h).2 in
  let down := (getNext current h).2 in
  browse_ok up ∧ browse_ok down
  ∧ entries up = entries h ∧ entries down = entries h
  ∧ size up = size h ∧ size down = size h
  ∧ ((rewind o h st).1.1 = Normal () → browse_ok (rewind o h st).1.2).
Proof.
  intros Hok up down. subst up down. split_and!; try done.
  - by apply getPrevious_browse_ok.
  - by apply getNext_browse_ok.
  - apply rewind_browse_ok.
Qed.

(** X2. In such a state the Up arrow recalls a line exactly when the browse
    cursor is above the oldest entry, the Down arrow exactly when it is below
    the live position. *)
Theorem recall_defined (h : t) (current : jsstring) :
  browse_ok h →
  (is_Some (getPrevious current h).1 ↔ 0 < cursor h)
  ∧ (is_Some (getNext current h).1 ↔ cursor h < length (entries h)).
Proof.
  intros [[Hc Hl] Hs]. split.
  - unfold getPrevious. cbn [fst]. destruct (cursor h) as [|c] eqn:E.
    + split; [intros [x Hx]; done|lia].
    + split; [lia|intros _]. rewrite js_nth_pred.
      destruct (lookup_lt_is_Some_2 (entries h) c ltac:(lia)) as [x Hx]. rewrite Hx.
      destruct (js_get _ _); by eexists.
  - unfold getNext. cbn [fst].
    replace (Z.of_nat (cursor h) + 1)%Z with (Z.of_nat (S (cursor h))) by lia.
    rewrite js_get_set_ne by lia. split.
    + intros Hsome. destruct (decide (cursor h < length (entries h))); [done|exfalso].
      rewrite js_get_nat, (lookup_ge_None_2 (temporaries h)) in Hsome by lia.
      unfold js_nth in Hsome.
      destruct (Z.ltb_spec (Z.of_nat (S (cursor h))) 0); [lia|].
      rewrite lookup_ge_None_2 in Hsome by lia. by destruct Hsome.
    + intros Hlt. destruct (Hs (S (cursor h)) ltac:(lia)) as [x ->]. by eexists.
Qed.

(** X3. An accepted entry becomes the newest stored entry and brings the
    list within capacity, however long the list was before (a persisted
    list longer than [size] is cut down here, not by the constructor). *)
Theorem accepted_entry_truncates (h : t) (e : jsstring) (st : St) :
  accepts (Some e) h = true →
  let h' := (rewind (Some e) h st).1.2 in
  length (entries h') ≤ Z.to_nat (size h)
  ∧ ((0 < size h)%Z → list.last (entries h') = Some e)
  ∧ ((size h ≤ 0)%Z → entries h' = [])
  ∧ entries h' `suffix_of` entries h ++ [e].
Proof.
  intros Ha h'. subst h'. rewrite rewind_entries, Ha. split_and!.
  - unfold pushed. destruct (Z.ltb_spec (size h) (Z.of_nat (length (entries h ++ [e])))).
    + rewrite length_drop. lia.
    + lia.
  - intros Hs. by apply pushed_last.
  - intros Hs. by apply pushed_no_room.
  - unfold pushed. case_match; [apply suffix_drop|done].
Qed.

End HistoryExtras.

Lemma assoc_set_get (key v : jsstring) (items : list (jsstring * jsstring)) :
  assoc key (assoc_set key v items) = Some v.
Proof.
  induction items as [|[k v'] items IH]; simpl.
  - by rewrite decide_True.
  - destruct (decide (k = key)) as [->|Hne]; simpl.
    + by rewrite decide_True.
    + by rewrite decide_False.
Qed.

Lemma as_strings_strings (es : list jsstring) :
  HistoryController.as_strings (JSON.String <$> es) = Some es.
Proof. induction es as [|e es IH]; [done|]. cbn. fold (fmap JSON.String es). by rewrite IH. Qed.

(** X4. What [rewind] persists, the constructor loads back: a store made
    over the storage a [rewind] with an accepted entry left has exactly the
    entries that [rewind] left, whatever its capacity. *)
Theorem persisted_history_reloads (h : HistoryController.t) (st : memory_storage)
    (key e : jsstring) (size' : Z) :
  HistoryController.persistent h = Some key →
  HistoryController.accepts (Some e) h = true →
  Forall well_formed (HistoryController.entries h) → well_formed e →
  let '(c, h', st') := HistoryController.rewind (Some e) h st in
  c = Normal ()
  ∧ getItem st' key = Normal (Some (JSON.stringify (HistoryController.entries h')))
  ∧ HistoryController.constructor size' (Some key) st'
    = Constructed (HistorySpec.fresh size' (Some key) (HistoryController.entries h')).
Proof.
  intros Hp Ha Hes He. unfold HistoryController.rewind. rewrite Ha. cbn. rewrite Hp. cbn.
  assert (Forall well_formed (HistoryController.pushed e h)) as Hwf.
  { unfold HistoryController.pushed. case_match.
    - apply Forall_drop, Forall_app. split; [done|by constructor].
    - apply Forall_app. split; [done|by constructor]. }
  split_and!; [done|by rewrite assoc_set_get|].
  unfold HistoryController.constructor, HistoryController.loadEntries. cbn.
  rewrite assoc_set_get. cbn. rewrite JSONRoundTrip.parse_stringify by done.
  rewrite as_strings_strings. by rewrite resetCursor_fresh.
Qed.

(** ** More on the controller *)

(** ** Input text *)

Lemma normalizeInput_id (s : jsstring) : 10%N ∉ s → normalizeInput s = s.
Proof.
  induction s as [|c s IH]; [done|]. intros H. apply not_elem_of_cons in H as [Hc Hs].
  cbn [normalizeInput]. destruct (c =? 13)%N eqn:E13.
  - destruct s as [|d s]; [done|]. apply not_elem_of_cons in Hs as [Hd Hs'].
    rewrite (proj2 (N.eqb_neq d 10)) by done. by rewrite IH by (by apply not_elem_of_cons).
  - rewrite (proj2 (N.eqb_neq c 10)) by done. by rewrite IH.
Qed.

Lemma normalizeInput_no_lf (s : jsstring) :
  (10%N ∉ normalizeInput s) ∧ length (normalizeInput s) ≤ length s.
Proof.
  remember (length s) as n eqn:Hn. assert (length s ≤ n) as Hle by lia. clear Hn.
  revert s Hle. induction n as [|n IH]; intros [|c s] Hle; simpl in Hle; try lia;
    try (split; [apply not_elem_of_nil|done]).
  cbn [normalizeInput]. destruct (c =? 13)%N eqn:E13.
  - apply N.eqb_eq in E13 as ->. destruct s as [|d s].
    + split; [|done]. intros H. apply list_elem_of_singleton in H. done.
    + destruct (d =? 10)%N eqn:E10.
      * destruct (IH s ltac:(simpl in *; lia)) as [H1 H2]. split; [|simpl; lia].
        apply not_elem_of_cons. done.
      * destruct (IH (d :: s) ltac:(simpl in *; lia)) as [H1 H2]. split; [|simpl in *; lia].
        apply not_elem_of_cons. done.
  - destruct (IH s ltac:(lia)) as [H1 H2]. destruct (c =? 10)%N eqn:E10.
    + split; [|simpl; lia]. apply not_elem_of_cons. done.
    + split; [|simpl; lia]. apply not_elem_of_cons. apply N.eqb_neq in E10. done.
Qed.

Lemma normalizeInput_app_lf (a b : jsstring) :
  (10%N ∉ a) → list.last a ≠ Some 13%N →
  normalizeInput (a ++ [13%N; 10%N] ++ b) = a ++ 13%N :: normalizeInput b
  ∧ normalizeInput (a ++ [10%N] ++ b) = a ++ 13%N :: normalizeInput b.
Proof.
  induction a as [|c a IH]; intros Ha Hl; [done|].
  apply not_elem_of_cons in Ha as [Hc Ha].
  assert ((c =? 10)%N = false) as E10 by (by apply N.eqb_neq).
  destruct a as [|d a].
  - cbn [app normalizeInput]. cbn in Hl.
    assert ((c =? 13)%N = false) as E13 by (apply N.eqb_neq; congruence).
    by rewrite E13, E10.
  - destruct IH as [IH1 IH2]; [done|by rewrite last_cons_cons in Hl|].
    apply not_elem_of_cons in Ha as [Hd Ha].
    assert ((d =? 10)%N = false) as D10 by (by apply N.eqb_neq).
    change ((c :: d :: a) ++ ?x) with (c :: (d :: a) ++ x).
    cbn [normalizeInput]. cbn [app]. rewrite D10, E10.
    cbn [app] in IH1, IH2. rewrite IH1, IH2. by destruct (c =? 13)%N.
Qed.

(** X5. [normalizeInput] leaves no line feed: every line ending of the input,
    CR LF or LF or CR, is a single carriage return afterwards; text without a
    line feed is unchanged, so normalising twice is normalising once. *)
Theorem normalizeInput_line_endings (s : jsstring) :
  (10%N ∉ normalizeInput s)
  ∧ normalizeInput (normalizeInput s) = normalizeInput s
  ∧ length (normalizeInput s) ≤ length s
  ∧ (∀ a b, (10%N ∉ a) → list.last a ≠ Some 13%N →
       normalizeInput (a ++ [13%N; 10%N] ++ b) = a ++ 13%N :: normalizeInput b
       ∧ normalizeInput (a ++ [10%N] ++ b) = a ++ 13%N :: normalizeInput b).
Proof.
  destruct (normalizeInput_no_lf s) as [H1 H2]. split_and!; [done| |done|].
  - by apply normalizeInput_id.
  - intros a b Ha Hl. by apply normalizeInput_app_lf.
Qed.

Lemma printable_spec (c : N) :
  printable c = true ↔ (32 ≤ c)%N ∧ c ≠ 127%N.
Proof.
  unfold printable, TerminalController.is_control.
  rewrite negb_true_iff, orb_false_iff, N.ltb_ge, N.eqb_neq. done.
Qed.

Lemma normalizeInput_printable (s : jsstring) :
  forallb printable s = true → normalizeInput s = s.
Proof.
  intros H. apply normalizeInput_id. intros Hin.
  rewrite forallb_forall in H. apply list_elem_of_In, H in Hin. done.
Qed.

Ltac mem := first [done | by constructor | by do 2 constructor].

(** The code points of a text are the text cut in pieces of one or two
    code units. *)
Lemma code_points_concat (s : jsstring) :
  concat (code_points s) = s
  ∧ Forall (λ g, ∃ c d, g = c :: d ∧ length d ≤ 1 ∧ c ∈ s) (code_points s).
Proof.
  remember (length s) as n eqn:Hn. assert (length s ≤ n) as Hle by lia. clear Hn.
  revert s Hle. induction n as [|n IH]; intros [|c s] Hle; simpl in Hle; try lia;
    try (split; [done|constructor]).
  cbn [code_points].
  destruct (is_high_surrogate c).
  - destruct s as [|d s]; [split; [done|]; repeat constructor; exists c, []; split_and!;
      [done|simpl; lia|mem]|].
    destruct (is_low_surrogate d).
    + destruct (IH s ltac:(simpl in *; lia)) as [H1 H2]. split; [cbn [concat app]; by rewrite H1|].
      constructor; [exists c, [d]; split_and!; [done|simpl; lia|mem]|].
      eapply Forall_impl; [|exact H2]. intros g (c0 & d0 & -> & ? & ?).
      exists c0, d0. split_and!; [done|done|mem].
    + destruct (IH (d :: s) ltac:(simpl in *; lia)) as [H1 H2]. split; [cbn [concat app]; by rewrite H1|].
      constructor; [exists c, []; split_and!; [done|simpl; lia|mem]|].
      eapply Forall_impl; [|exact H2]. intros g (c0 & d0 & -> & ? & ?).
      exists c0, d0. split_and!; [done|done|mem].
  - destruct (IH s ltac:(lia)) as [H1 H2]. split; [cbn [concat app]; by rewrite H1|].
    constructor; [exists c, []; split_and!; [done|simpl; lia|mem]|].
    eapply Forall_impl; [|exact H2]. intros g (c0 & d0 & -> & ? & ?).
    exists c0, d0. split_and!; [done|done|mem].
Qed.

(** A code unit that is no surrogate is a code point of its own, whatever
    comes before it. *)
Lemma code_points_app (a : jsstring) (c : N) (b : jsstring) :
  is_high_surrogate c = false → is_low_surrogate c = false →
  code_points (a ++ c :: b) = code_points a ++ [c] :: code_points b.
Proof.
  intros Hh Hl.
  remember (length a) as n eqn:Hn. assert (length a ≤ n) as Hle by lia. clear Hn.
  revert a Hle. induction n as [|n IH]; intros [|x a] Hle; simpl in Hle; try lia;
    try (cbn [app code_points]; by rewrite Hh).
  cbn [app code_points]. destruct (is_high_surrogate x).
  - destruct a as [|d a].
    + cbn [app code_points]. by rewrite Hl, Hh.
    + cbn [app]. destruct (is_low_surrogate d).
      * by rewrite IH by (simpl in *; lia).
      * change (d :: a ++ c :: b) with ((d :: a) ++ c :: b).
        by rewrite IH by (simpl in *; lia).
  - by rewrite IH by lia.
Qed.

(** ** Editing the line *)

Section ControllerExtras.
Import TerminalController ControllerSpec HistoryBrowsing.
Context {St : Type} `{!Storage St}.

Ltac fields :=
  cbn [run startInputPhase suspend renderInput emit log with_line with_history
       with_inputPhase with_inputBuffer with_pending typed rerender
       history inputPhase input inputBuffer cursor localStorage pending trace console
       fst snd negb] in *.

Lemma typed_nil (w : t St) : typed [] w = w.
Proof. destruct w. unfold typed. fields. cbn [app length]. by rewrite take_drop, Nat.add_0_r. Qed.

Lemma typed_line_ok (text : jsstring) (w : t St) : line_ok w → line_ok (typed text w).
Proof.
  unfold line_ok, typed. fields. intros Hw.
  rewrite !length_app, length_take, length_drop. lia.
Qed.

Lemma typed_typed (a b : jsstring) (w : t St) :
  line_ok w → typed b (typed a w) = typed (a ++ b) w.
Proof.
  unfold line_ok, typed, with_line. fields. intros Hw.
  assert (length (take (cursor w) (input w)) = cursor w) as Hl by (rewrite length_take; lia).
  rewrite (app_assoc _ a).
  rewrite (take_app_length' (_ ++ a)) by (rewrite length_app, Hl; done).
  rewrite (drop_app_length' (_ ++ a)) by (rewrite length_app, Hl; done).
  rewrite length_app, <- !app_assoc. f_equal. lia.
Qed.

Lemma onChar_printable (g : jsstring) (c : N) (d : jsstring) (w : t St) :
  g = c :: d → printable c = true → onChar g w = (Normal false, typed g w).
Proof.
  intros -> Hc. unfold onChar, typed. cbn [charCodeAt lookup list_lookup].
  unfold printable in Hc. apply negb_true_iff in Hc. rewrite Hc.
  by rewrite substring_prefix, substring_suffix.
Qed.

Lemma onChars_printable (gs : list jsstring) :
  ∀ (w : t St) (b : bool),
  line_ok w →
  Forall (λ g, ∃ c d, g = c :: d ∧ printable c = true) gs →
  onChars gs b w = (Normal (match gs with [] => b | _ :: _ => false end), typed (concat gs) w).
Proof.
  induction gs as [|g gs IH]; intros w b Hw Hgs.
  - cbn. by rewrite typed_nil.
  - inversion_clear Hgs as [|? ? (c & d & Hg & Hc) Hgs'].
    cbn [onChars concat]. rewrite (onChar_printable g c d) by done.
    rewrite IH by (done || by apply typed_line_ok). rewrite typed_typed by done.
    by destruct gs.
Qed.

(** X6. A chunk of printable text (pasted or typed, surrogate pairs
    included) goes into the line buffer at the cursor, in one piece and in
    order; the cursor ends behind it; the line is redrawn once when the
    controller is live, and nothing else changes. *)
Theorem printable_chunk_inserted (text : jsstring) (w : t St) :
  line_ok w → text ≠ [] → forallb printable text = true →
  onData text w = (Normal (), rerender (typed text w))
  ∧ input (typed text w) = take (cursor w) (input w) ++ text ++ drop (cursor w) (input w)
  ∧ cursor (typed text w) = cursor w + length text.
Proof.
  intros Hw Hne Hp. split; [|done]. unfold onData.
  rewrite decide_True by (destruct text; [done|simpl; lia]).
  destruct text as [|c text']; [done|]. set (text := c :: text') in *.
  assert (printable c = true) as Hc by (by apply andb_true_iff in Hp as [? _]).
  rewrite decide_False.
  2: { cbn. intros [= ->]. done. }
  rewrite normalizeInput_printable by done.
  destruct (code_points_concat text) as [Hcat Hgs].
  rewrite onChars_printable; [|done|].
  - rewrite Hcat. destruct (code_points text) eqn:E; [by subst text|]. done.
  - eapply Forall_impl; [|exact Hgs]. intros g (c0 & d & -> & _ & Hin).
    exists c0, d. split; [done|]. rewrite forallb_forall in Hp.
    by apply Hp, list_elem_of_In.
Qed.

Lemma onEscape_left (w : t St) :
  onEscape (js "[D") w
  = (false, if decide (0 < cursor w) then with_line (input w) (cursor w - 1) w else w).
Proof. unfold onEscape. by rewrite !decide_False, decide_True by done. Qed.

Lemma onEscape_right (w : t St) :
  onEscape (js "[C") w
  = (false, if decide (cursor w < length (input w))
            then with_line (input w) (cursor w + 1) w else w).
Proof. unfold onEscape. by rewrite !decide_False, decide_True by done. Qed.

Lemma onEscape_delete (w : t St) :
  onEscape (js "[3~") w
  = (false, if decide (cursor w < length (input w))
            then with_line (take (cursor w) (input w) ++ drop (cursor w + 1) (input w))
                           (cursor w) w
            else w).
Proof.
  unfold onEscape. rewrite !decide_False, decide_True by done.
  by rewrite substring_prefix, substring_suffix.
Qed.

Lemma onChar_backspace (w : t St) :
  onChar [127%N] w
  = (Normal false,
     if decide (0 < cursor w)
     then with_line (take (cursor w - 1) (input w) ++ drop (cursor w) (input w))
                    (cursor w - 1) w
     else w).
Proof.
  unfold onChar. change (is_control (charCodeAt [127%N] 0)) with true. cbv iota.
  rewrite decide_False, decide_True by done.
  by rewrite substring_prefix, substring_suffix.
Qed.

(** X7. A printable code unit typed and then Backspace leave the line
    buffer and the cursor exactly as they were. *)
Theorem insert_backspace_restores (c : N) (w : t St) :
  line_ok w → printable c = true →
  (onChar [127%N] (onChar [c] w).2).2 = w.
Proof.
  intros Hw Hc. rewrite (onChar_printable [c] c []) by done. cbn [snd].
  unfold line_ok in Hw. rewrite onChar_backspace. cbn [snd].
  rewrite decide_True by (unfold typed; fields; simpl; lia).
  destruct w as [h p i q cu st pe tr co].
  unfold typed. fields. cbn [length].
  pose proof (remove_last_unit (take cu i) [c] (drop cu i) ltac:(simpl; lia)) as R.
  rewrite length_take in R. replace (min cu (length i)) with cu in R by lia.
  cbn [length] in R. rewrite R. change (1 - 1) with 0. cbn [take app].
  rewrite take_drop. unfold with_line. fields. f_equal. lia.
Qed.

(** X8. Backspace is cursor-left followed by delete-forward; cursor-right
    undoes cursor-left and cursor-left undoes cursor-right wherever the first
    of the two moves. *)
Theorem cursor_moves_compose (w : t St) :
  line_ok w →
  (0 < cursor w →
   (onChar [127%N] w).2 = (onEscape (js "[3~") (onEscape (js "[D") w).2).2
   ∧ (onEscape (js "[C") (onEscape (js "[D") w).2).2 = w)
  ∧ (cursor w < length (input w) →
     (onEscape (js "[D") (onEscape (js "[C") w).2).2 = w).
Proof.
  unfold line_ok. intros Hw. destruct w as [h p i q cu st pe tr co]. fields. split.
  - intros Hpos. rewrite onChar_backspace, onEscape_left. fields.
    rewrite !decide_True by lia. fields.
    rewrite onEscape_delete, onEscape_right. fields.
    rewrite !decide_True by lia. unfold with_line. fields. split.
    + replace (cu - 1 + 1) with cu by lia. done.
    + f_equal. lia.
  - intros Hlt. rewrite onEscape_right. fields. rewrite decide_True by lia. fields.
    rewrite onEscape_left. fields. rewrite decide_True by lia.
    unfold with_line. fields. f_equal. lia.
Qed.

(** ** Input that is ignored *)

Lemma onChar_ignored (c : N) (w : t St) :
  ignored c = true → onChar [c] w = (Normal false, w).
Proof.
  unfold ignored. rewrite andb_true_iff, negb_true_iff, !orb_false_iff, !N.eqb_neq.
  intros (Hc & (((H13 & H10) & H127) & H3) & H27). unfold onChar.
  cbn [charCodeAt lookup list_lookup]. rewrite Hc.
  rewrite !decide_False by (intros [= ?]; done). done.
Qed.

Lemma ignored_no_surrogate (c : N) : ignored c = true → is_high_surrogate c = false.
Proof.
  unfold ignored, is_control, is_high_surrogate.
  rewrite andb_true_iff, orb_true_iff, N.ltb_lt, N.eqb_eq. intros [[H|H] _];
    apply andb_false_iff; left; apply N.leb_gt; lia.
Qed.

Lemma code_points_ignored (s : jsstring) :
  forallb ignored s = true → code_points s = map (λ c, [c]) s.
Proof.
  induction s as [|c s IH]; [done|]. cbn [forallb]. rewrite andb_true_iff. intros [Hc Hs].
  cbn [code_points map]. by rewrite (ignored_no_surrogate c Hc), IH.
Qed.

Lemma onChars_ignored (s : jsstring) (b : bool) (w : t St) :
  forallb ignored s = true →
  onChars (map (λ c, [c]) s) b w = (Normal (match s with [] => b | _ :: _ => false end), w).
Proof.
  revert b. induction s as [|c s IH]; intros b; [done|]. cbn [forallb].
  rewrite andb_true_iff. intros [Hc Hs]. cbn [map onChars].
  rewrite onChar_ignored, IH by done. by destruct s.
Qed.

(** X9. Input the controller has no case for changes neither the line buffer
    nor the history nor the queue: a chunk of other control characters (Tab,
    Ctrl+A, ...) is dropped, an unrecognised escape sequence is only sent to
    [console.log]; in the live phase the line is redrawn all the same. *)
Theorem unknown_input_ignored (w : t St) :
  (∀ str, str ≠ [] → forallb ignored str = true →
     onData str w = (Normal (), rerender w))
  ∧ (∀ sequence,
       sequence ∉ [js "[A"; js "[B"; js "[D"; js "[C"; js "[3~"] →
       onData (27%N :: sequence) w = (Normal (), rerender (log sequence w))).
Proof.
  split.
  - intros str Hne Hs. unfold onData.
    rewrite decide_True by (destruct str; [done|simpl; lia]).
    destruct str as [|c str']; [done|]. set (str := c :: str') in *.
    assert (ignored c = true) as Hc by (by apply andb_true_iff in Hs as [? _]).
    rewrite decide_False.
    2: { cbn. intros [= ->]. done. }
    rewrite normalizeInput_id.
    2: { intros Hin. rewrite forallb_forall in Hs. apply list_elem_of_In, Hs in Hin. done. }
    rewrite code_points_ignored, onChars_ignored by done. done.
  - intros sequence Hseq. unfold onData. rewrite decide_True by (simpl; lia).
    rewrite decide_True by done. rewrite substring_suffix.
    change (drop 1 (27%N :: sequence)) with sequence.
    unfold onEscape. rewrite !decide_False; [done|..];
      intros ->; apply Hseq; repeat constructor.
Qed.

(** ** Enter *)

Lemma rewind_no_key (o : option jsstring) (h : HistoryController.t) (st : St) :
  HistoryController.persistent h = None →
  (HistoryController.rewind o h st).1.1 = Normal ()
  ∧ (HistoryController.rewind o h st).2 = st
  ∧ HistoryController.persistent (HistoryController.rewind o h st).1.2 = None.
Proof.
  intros Hp. unfold HistoryController.rewind. destruct o as [e|]; [|done].
  destruct (HistoryController.accepts _ _); [|done]. cbn. by rewrite Hp.
Qed.

(** X10. Enter in the live phase hands the line to the handler whenever
    [rewind] returns: also a blank line, which the history does not keep.
    The line is shown as completed first; the line buffer is cleared and the
    controller leaves the live phase until the handler is done. *)
Theorem enter_runs_handler (w : t St) :
  inputPhase w = true →
  (HistoryController.rewind (Some (input w)) (history w) (localStorage w)).1.1 = Normal () →
  let '(c, w') := onChar [13%N] w in
  c = Normal true
  ∧ trace w' = trace w ++ [Render false true (Live (take (cursor w) (input w))
                                                    (drop (cursor w) (input w)));
                           RunHandler (input w)]
  ∧ pending w' = pending w ++ [AwaitHandler]
  ∧ inputPhase w' = false ∧ input w' = empty_string ∧ cursor w' = 0
  ∧ inputBuffer w' = inputBuffer w
  ∧ history w'
    = (HistoryController.rewind (Some (input w)) (history w) (localStorage w)).1.2
  ∧ (HistorySpec.blank (input w) = true →
     HistoryController.entries (history w') = HistoryController.entries (history w)).
Proof.
  intros Hlive Hr. unfold onChar. change (is_control (charCodeAt [13%N] 0)) with true.
  cbv iota. rewrite decide_True by done. unfold pushInput.
  pose proof (HistoryFacts.rewind_entries (input w) (history w) (localStorage w)) as He.
  destruct (HistoryController.rewind (Some (input w)) (history w) (localStorage w))
    as [[c h] st]. cbn [fst snd] in *. subst c. fields. rewrite Hlive. fields.
  rewrite substring_prefix, substring_suffix. split_and!; try done.
  - by rewrite <- app_assoc.
  - intros Hb. rewrite He, HistoryFacts.accepts_spec, Hb. done.
Qed.

(** ** Pasted lines *)

Lemma onChars_app (xs ys : list jsstring) (b : bool) (w : t St) :
  onChars (xs ++ ys) b w
  = match onChars xs b w with
    | (Normal b', w') => onChars ys b' w'
    | (Throw ex, w') => (Throw ex, w')
    end.
Proof.
  revert b w. induction xs as [|x xs IH]; intros b w; [done|].
  cbn [app onChars]. destruct (onChar x w) as [[b'|ex] w']; [apply IH|done].
Qed.

Lemma printable_line (l : jsstring) :
  forallb printable l = true → (10%N ∉ l) ∧ list.last l ≠ Some 13%N.
Proof.
  intros H. rewrite forallb_forall in H. split.
  - intros Hin. apply list_elem_of_In, H in Hin. done.
  - intros Hl. apply last_Some in Hl as [l' ->].
    specialize (H 13%N). rewrite in_app_iff in H. by specialize (H (or_intror (or_introl eq_refl))).
Qed.

Lemma onChar_enter_queued (w : t St) :
  inputPhase w = false → HistoryController.persistent (history w) = None →
  onChar [13%N] w = (Normal true, queued w).
Proof.
  intros Hlive Hp. unfold onChar. change (is_control (charCodeAt [13%N] 0)) with true.
  cbv iota. rewrite decide_True by done. unfold pushInput, queued.
  destruct (rewind_no_key (Some (input w)) (history w) (localStorage w) Hp) as (Hc & Hst & _).
  destruct (HistoryController.rewind (Some (input w)) (history w) (localStorage w))
    as [[c h] st]. cbn [fst snd] in *. subst c st. fields. rewrite Hlive. fields.
  unfold with_line, with_inputBuffer, with_history. fields. by rewrite Hlive.
Qed.

Lemma queue_lines (rest : list jsstring) :
  ∀ (w : t St),
  inputPhase w = false → HistoryController.persistent (history w) = None →
  input w = [] → cursor w = 0 →
  Forall (λ l, forallb printable l = true) rest →
  ∃ w', onChars (code_points (normalizeInput (lines_text rest))) true w = (Normal true, w')
        ∧ inputBuffer w' = inputBuffer w ++ map (λ l, Entry l true) rest
        ∧ history w' = (HistorySpec.rewinds rest (history w) (localStorage w)).1
        ∧ inputPhase w' = false ∧ input w' = [] ∧ cursor w' = 0
        ∧ pending w' = pending w ∧ trace w' = trace w.
Proof.
  induction rest as [|l rest IH]; intros w Hlive Hp Hin Hcu Hrest.
  - exists w. cbn. rewrite app_nil_r. by split_and!.
  - inversion_clear Hrest as [|? ? Hl Hrest'].
    destruct (printable_line l Hl) as [Hlf Hcr].
    change (lines_text (l :: rest)) with ((l ++ [10%N]) ++ lines_text rest).
    rewrite <- app_assoc.
    destruct (normalizeInput_app_lf l (lines_text rest) Hlf Hcr) as [_ ->].
    rewrite code_points_app by done. rewrite onChars_app.
    destruct (code_points_concat l) as [Hcat Hgs].
    rewrite onChars_printable; [|unfold line_ok; lia|].
    2: { eapply Forall_impl; [|exact Hgs]. intros g (c0 & d & -> & _ & Hc0).
         exists c0, d. split; [done|]. rewrite forallb_forall in Hl.
         by apply Hl, list_elem_of_In. }
    rewrite Hcat. cbn [onChars].
    rewrite onChar_enter_queued by (unfold typed; fields; done).
    set (w1 := queued (typed l w)).
    assert (input (typed l w) = l) as Htyped.
    { unfold typed. fields. rewrite Hin, Hcu. cbn. by rewrite app_nil_r. }
    destruct (IH w1) as (w' & Hrun & Hq & Hh & Hphase & Hi & Hc & Hpe & Htr); try done.
    { subst w1. unfold queued, typed. fields.
      by destruct (rewind_no_key (Some (take (cursor w) (input w) ++ l ++ drop (cursor w) (input w)))
                     (history w) (localStorage w) Hp) as (_ & _ & ?). }
    exists w'. rewrite Hrun. split_and!; try done.
    + rewrite Hq. subst w1. unfold queued. fields. rewrite Htyped.
      unfold typed. fields. by rewrite <- app_assoc.
    + rewrite Hh. subst w1. unfold queued. fields. rewrite Htyped. unfold typed. fields.
      cbn [HistorySpec.rewinds].
      by destruct (HistoryController.rewind (Some l) (history w) (localStorage w)) as [[c h] st].
Qed.

(** X11. A paste of several printable lines arriving as one chunk in the live
    phase (no storage key configured): the first line, typed at the cursor,
    is shown as completed and goes to the handler; every further line is
    queued for execution in the order pasted; each line is offered to the
    history in turn; nothing else is drawn, and the line buffer ends empty. *)
Theorem pasted_lines_queue (first : jsstring) (rest : list jsstring) (w : t St) :
  inputPhase w = true → line_ok w →
  HistoryController.persistent (history w) = None →
  forallb printable first = true →
  Forall (λ l, forallb printable l = true) rest →
  let line := take (cursor w) (input w) ++ first ++ drop (cursor w) (input w) in
  let '(c, w') := onData (lines_text (first :: rest)) w in
  c = Normal ()
  ∧ trace w' = trace w ++ [Render false true (Live (take (cursor w) (input w) ++ first)
                                                    (drop (cursor w) (input w)));
                           RunHandler line]
  ∧ inputBuffer w' = inputBuffer w ++ map (λ l, Entry l true) rest
  ∧ history w' = (HistorySpec.rewinds (line :: rest) (history w) (localStorage w)).1
  ∧ pending w' = pending w ++ [AwaitHandler]
  ∧ inputPhase w' = false ∧ input w' = [] ∧ cursor w' = 0.
Proof.
  intros Hlive Hw Hp Hfirst Hrest line.
  destruct (printable_line first Hfirst) as [Hlf Hcr].
  unfold onData.
  change (lines_text (first :: rest)) with ((first ++ [10%N]) ++ lines_text rest).
  rewrite <- app_assoc.
  rewrite decide_True by (rewrite length_app; simpl; lia).
  rewrite decide_False.
  2: { destruct first as [|c f]; cbn; [done|]. intros [= ->].
       by apply andb_true_iff in Hfirst as [? _]. }
  destruct (normalizeInput_app_lf first (lines_text rest) Hlf Hcr) as [_ ->].
  rewrite code_points_app by done. rewrite onChars_app.
  destruct (code_points_concat first) as [Hcat Hgs].
  rewrite onChars_printable; [|done|].
  2: { eapply Forall_impl; [|exact Hgs]. intros g (c0 & d & -> & _ & Hc0).
       exists c0, d. split; [done|]. rewrite forallb_forall in Hfirst.
       by apply Hfirst, list_elem_of_In. }
  rewrite Hcat. cbn [onChars].
  assert (∃ w1, onChar [13%N] (typed first w) = (Normal true, w1)
    ∧ trace w1 = trace w ++ [Render false true (Live (take (cursor w) (input w) ++ first)
                                                      (drop (cursor w) (input w)));
                             RunHandler line]
    ∧ inputBuffer w1 = inputBuffer w
    ∧ history w1 = (HistoryController.rewind (Some line) (history w) (localStorage w)).1.2
    ∧ localStorage w1 = localStorage w
    ∧ pending w1 = pending w ++ [AwaitHandler]
    ∧ inputPhase w1 = false ∧ input w1 = [] ∧ cursor w1 = 0)
    as (w1 & -> & Ht1 & Hq1 & Hh1 & Hst1 & Hp1 & Hphase1 & Hi1 & Hc1).
  { unfold onChar. change (is_control (charCodeAt [13%N] 0)) with true. cbv iota.
    rewrite decide_True by done. unfold pushInput, typed. fields. fold line.
    destruct (rewind_no_key (Some line) (history w) (localStorage w) Hp) as (Hc & Hst & _).
    destruct (HistoryController.rewind (Some line) (history w) (localStorage w))
      as [[c h] st]. cbn [fst snd] in *. subst c st. fields. rewrite Hlive. fields.
    eexists. split; [done|]. fields.
    rewrite substring_prefix, substring_suffix.
    unfold line_ok in Hw.
    assert (length (take (cursor w) (input w)) = cursor w) as Hl
      by (rewrite length_take; lia).
    unfold line at 1 2. rewrite (app_assoc _ first).
    rewrite (take_app_length' (_ ++ first)) by (rewrite length_app, Hl; done).
    rewrite (drop_app_length' (_ ++ first)) by (rewrite length_app, Hl; done).
    split_and!; try done. by rewrite <- app_assoc. }
  destruct (queue_lines rest w1) as (w' & -> & Hq & Hh & Hphase & Hi & Hc & Hpe & Htr);
    try done.
  { rewrite Hh1.
    by destruct (rewind_no_key (Some line) (history w) (localStorage w) Hp) as (_ & _ & ?). }
  rewrite Hphase, andb_false_r. split_and!; try congruence.
  rewrite Hh, Hh1, Hst1. cbn [HistorySpec.rewinds].
  destruct (rewind_no_key (Some line) (history w) (localStorage w) Hp) as (_ & Hst & _).
  destruct (HistoryController.rewind (Some line) (history w) (localStorage w)) as [[c h] st].
  cbn [fst snd] in *. by subst st.
Qed.

(** ** Without a storage key *)

Lemma pushInput_unkeyed (exec : bool) (w : t St) :
  HistoryController.persistent (history w) = None →
  (pushInput exec w).1 = Normal () ∧ unkeyed w (pushInput exec w).2.
Proof.
  intros Hp. unfold pushInput, unkeyed.
  destruct (rewind_no_key (if exec then Some (input w) else None)
              (history w) (localStorage w) Hp) as (Hc & Hst & Hp').
  pose proof (rewind_browse_ok (if exec then Some (input w) else None)
                (history w) (localStorage w) Hc) as Hok.
  destruct (HistoryController.rewind _ (history w) (localStorage w)) as [[c h] st].
  cbn [fst snd] in *. subst c st. fields.
  destruct (inputPhase w), exec; fields; try done;
    unfold startInputPhase; fields; by split_and!.
Qed.

Lemma onEscape_unkeyed (sequence : jsstring) (w : t St) :
  HistoryController.persistent (history w) = None → unkeyed w (onEscape sequence w).2.
Proof.
  intros Hp. unfold onEscape, unkeyed. repeat case_decide.
  - pose proof (getPrevious_browse_ok (input w) (history w)) as Hok.
    pose proof (getPrevious_persistent (input w) (history w)) as Hper.
    destruct (HistoryController.getPrevious _ _) as [[p|] h];
      cbn [snd] in *; fields; split_and!; congruence || done.
  - pose proof (getNext_browse_ok (input w) (history w)) as Hok.
    pose proof (getNext_persistent (input w) (history w)) as Hper.
    destruct (HistoryController.getNext _ _) as [[p|] h];
      cbn [snd] in *; fields; split_and!; congruence || done.
  - by fields.
  - by fields.
  - by fields.
  - by fields.
  - by fields.
  - by fields.
  - by fields.
Qed.

Lemma unkeyed_trans (w1 w2 w3 : t St) : unkeyed w1 w2 → unkeyed w2 w3 → unkeyed w1 w3.
Proof. intros (? & ? & ?) (? & ? & ?). split_and!; [congruence|done|auto]. Qed.

Lemma unkeyed_refl (w : t St) :
  HistoryController.persistent (history w) = None → unkeyed w w.
Proof. by intros Hp. Qed.

Lemma onChar_unkeyed (char : jsstring) (w : t St) :
  HistoryController.persistent (history w) = None →
  (∃ b, (onChar char w).1 = Normal b) ∧ unkeyed w (onChar char w).2.
Proof.
  intros Hp. unfold onChar. destruct (is_control _).
  - destruct (decide (char = [13%N])).
    { destruct (pushInput_unkeyed true w Hp) as [Hc Hu].
      destruct (pushInput true w) as [c w']. cbn [fst snd] in *. subst c. eauto. }
    destruct (decide (char = [127%N])).
    { split; [eauto|]. case_decide; by fields. }
    destruct (decide (char = [3%N])); [|split; [eauto|done]].
    destruct (pushInput_unkeyed false (with_line (input w ++ js "^C") (cursor w) w) Hp)
      as [Hc Hu].
    destruct (pushInput false _) as [c w']. cbn [fst snd] in *. subst c. eauto.
  - split; [eauto|]. by fields.
Qed.

Lemma onChars_unkeyed (chars : list jsstring) :
  ∀ (b : bool) (w : t St),
  HistoryController.persistent (history w) = None →
  (∃ b', (onChars chars b w).1 = Normal b') ∧ unkeyed w (onChars chars b w).2.
Proof.
  induction chars as [|char chars IH]; intros b w Hp; [split; [eauto|done]|].
  cbn [onChars]. destruct (onChar_unkeyed char w Hp) as [[b' Hc] Hu].
  destruct (onChar char w) as [c w']. cbn [fst snd] in *. subst c.
  destruct (IH b' w' ltac:(by destruct Hu as (_ & ? & _))) as [Hc' Hu'].
  split; [done|]. by eapply unkeyed_trans.
Qed.

Lemma onData_unkeyed (str : jsstring) (w : t St) :
  HistoryController.persistent (history w) = None →
  (onData str w).1 = Normal () ∧ unkeyed w (onData str w).2.
Proof.
  intros Hp. unfold onData.
  match goal with |- context [let '(c, w') := ?r in _] => set (res := r) end.
  assert ((∃ b, res.1 = Normal b) ∧ unkeyed w res.2) as [[b Hb] Hres].
  { subst res. case_decide; [|split; [eauto|done]]. case_decide.
    - pose proof (onEscape_unkeyed (substring str 1 None) w Hp).
      destruct (onEscape _ w). split; [eauto|done].
    - by apply onChars_unkeyed. }
  destruct res as [c w']. cbn [fst snd] in *. subst c. cbn [fst snd].
  split; [done|]. by destruct (negb b && inputPhase w').
Qed.

Lemma step_unkeyed (ev : event) (w : t St) :
  HistoryController.persistent (history w) = None → unkeyed w (step ev w).
Proof.
  intros Hp. destruct ev as [str| |i x|i]; cbn [step].
  - by apply onData_unkeyed.
  - unfold onResize. by destruct (inputPhase w).
  - destruct (pending w !! i) as [[]|]; [| | |done].
    + unfold afterFlush, drain. case_decide; fields;
        destruct (inputBuffer w) as [|e q]; try destruct (execute e); by fields.
    + unfold drain. fields. destruct (inputBuffer w) as [|e q]; try destruct (execute e);
        by fields.
    + unfold startInputPhase. by destruct (negb _).
  - by destruct (pending w !! i) as [[]|].
Qed.

(** X12. With no storage key configured the controller never touches
    [localStorage], whatever it is sent: no chunk of input makes [onData]
    throw, and the history store stays well formed (browse cursor inside
    the history, a scratch slot for each position). *)
Theorem no_key_no_storage (w : t St) (evs : list event) (str : jsstring) :
  HistoryController.persistent (history w) = None →
  let w' := steps evs w in
  localStorage w' = localStorage w
  ∧ HistoryController.persistent (history w') = None
  ∧ (HistoryBrowsing.browse_ok (history w) → HistoryBrowsing.browse_ok (history w'))
  ∧ (onData str w').1 = Normal ().
Proof.
  intros Hp w'. assert (unkeyed w w') as (H1 & H2 & H3).
  { subst w'. revert w Hp. induction evs as [|ev evs IH]; intros w Hp; [done|].
    cbn [steps fold_left]. pose proof (step_unkeyed ev w Hp) as Hs.
    eapply unkeyed_trans; [done|]. apply IH. by destruct Hs as (_ & ? & _). }
  split_and!; try done. by apply onData_unkeyed.
Qed.

(** ** Phases *)

(** X13. From construction on and whatever the event loop delivers, the live
    phase has an empty queue and no suspended continuation, and out of the
    live phase at most one continuation ([startInputPhase] or [run]) is
    suspended: the controller never drains its queue twice at a time and
    never runs two handlers at once. *)
Theorem one_continuation_at_a_time (h : HistoryController.t) (st : St) (evs : list event) :
  phase_ok (steps evs (init h st)).
Proof.
  generalize (phase_ok_init h st). generalize (init h st).
  induction evs as [|ev evs IH]; intros w Hw; [done|].
  apply IH. by apply phase_ok_step.
Qed.

Lemma outside_quiet (evs : list event) :
  ∀ w : t St, inputPhase w = false → Forall from_outside evs → quiet w (steps evs w).
Proof.
  induction evs as [|ev evs IH]; intros w Hlive Hevs; [done|].
  inversion_clear Hevs as [|? ? Hev Hevs']. cbn [steps fold_left].
  assert (quiet w (step ev w)) as Hq.
  { destruct ev as [str| | |]; try done.
    - by apply onData_quiet.
    - cbn [step]. unfold onResize. by rewrite Hlive. }
  eapply quiet_trans; [done|]. apply IH; [by destruct Hq|done].
Qed.

(** X14. While the controller is out of the live phase, nothing the user
    types or pastes and no resize writes to the terminal, calls the handler
    or takes a line off the queue: completed lines are only added at its
    end; and the phase stays as it is. *)
Theorem type_ahead_is_silent (w : t St) (evs : list event) :
  inputPhase w = false → Forall from_outside evs →
  let w' := steps evs w in
  trace w' = trace w ∧ pending w' = pending w ∧ inputPhase w' = false
  ∧ inputBuffer w `prefix_of` inputBuffer w'.
Proof.
  intros Hlive Hevs w'. destruct (outside_quiet evs w Hlive Hevs) as (? & ? & ? & ?).
  by split_and!.
Qed.

(** X15. When the handler's promise rejects, [run] never calls
    [startInputPhase]: from then on no event makes the controller live
    again, and it never writes to the terminal or calls the handler again. *)
Theorem handler_rejection_is_final (w : t St) (evs : list event) :
  inputPhase w = false → pending w = [AwaitHandler] →
  let w' := steps (Rejected 0 :: evs) w in
  inputPhase w' = false ∧ pending w' = [] ∧ trace w' = trace w.
Proof.
  intros Hlive Hp w'. subst w'. cbn [steps fold_left step]. rewrite Hp.
  cbn [lookup list_lookup]. change (delete 0 [AwaitHandler]) with (@nil Task).
  set (w0 := with_pending [] w).
  assert (inputPhase w0 = false ∧ pending w0 = [] ∧ trace w0 = trace w) as Hw0 by done.
  clearbody w0. revert w0 Hw0.
  induction evs as [|ev evs IH]; intros w0 (Hl0 & Hp0 & Ht0); [done|].
  cbn [fold_left]. apply IH. destruct ev as [str| |i x|i]; cbn [step].
  - destruct (onData_quiet str w0 Hl0) as (? & ? & ? & _). split_and!; congruence.
  - unfold onResize. by rewrite Hl0.
  - by rewrite Hp0, lookup_nil.
  - by rewrite Hp0, lookup_nil.
Qed.

(** X16. Start-up: a controller made without a storage key has an empty
    history of capacity 100 and waits for the first flush; when that flush
    resolves (nothing typed yet) it starts a fresh row if the terminal's
    cursor is not in the first column, draws the empty prompt line and is
    live. *)
Theorem startup_goes_live (h : HistoryController.t) (st : St) (cursorX : nat) :
  constructor (Options None None) st = Constructed (init (HistorySpec.fresh 100 None []) st)
  ∧ inputPhase (init h st) = false ∧ pending (init h st) = [AwaitFlush]
  ∧ let w := step (Resolved 0 cursorX) (init h st) in
    inputPhase w = true ∧ pending w = [] ∧ inputBuffer w = []
    ∧ input w = empty_string ∧ cursor w = 0 ∧ history w = h
    ∧ trace w = [Write empty_string] ++ fresh_line cursorX
                ++ [Render true false (Live empty_string empty_string)].
Proof.
  split_and!; try done. unfold fresh_line. cbn. unfold afterFlush.
  case_decide; by cbn.
Qed.

End ControllerExtras.

(** ** Redrawing in place *)

Lemma countWrapped_spec (b : Buffer) (fuel : nat) :
  ∀ wrapped, wrapped ≤ cursorY b → cursorY b ≤ fuel + wrapped →
  let r := countWrapped fuel wrapped b in
  wrapped ≤ r ≤ cursorY b
  ∧ (∀ k, wrapped ≤ k < r → wrappedAt b (cursorY b - k) = true)
  ∧ (r < cursorY b → wrappedAt b (cursorY b - r) = false).
Proof.
  induction fuel as [|fuel IH]; intros wrapped Hle Hfuel; cbn [countWrapped].
  - split; [lia|]. split; [intros; lia|lia].
  - destruct (Nat.ltb_spec wrapped (cursorY b)) as [Hlt|Hge]; cbn [andb].
    + destruct (wrappedAt b (cursorY b - wrapped)) eqn:E.
      * destruct (IH (S wrapped) ltac:(lia) ltac:(lia)) as (H1 & H2 & H3).
        split; [lia|]. split; [|done].
        intros k Hk. destruct (decide (k = wrapped)) as [->|Hne]; [done|].
        apply H2. lia.
      * split; [lia|]. split; [intros; lia|done].
    + split; [lia|]. split; [intros; lia|lia].
Qed.

(** X17. The loop of [renderInput] that sets [wrappedLines] counts the
    indices [cursorY], [cursorY - 1], ... at which [getLine] returns a line
    marked [isWrapped], as long as they are consecutive: at every index
    counted there is such a line, at the next one there is no line or one
    that is not marked (unless the count has reached [cursorY]), and the
    count never exceeds [cursorY].  The indices are the ones the source
    passes to [getLine]. *)
Theorem wrappedLines_counts_run (b : Buffer) :
  wrappedLines b ≤ cursorY b
  ∧ (∀ k, k < wrappedLines b →
       ∃ line, getLine b (cursorY b - k) = Some line ∧ isWrapped line = true)
  ∧ (wrappedLines b < cursorY b →
     getLine b (cursorY b - wrappedLines b) = None
     ∨ ∃ line, getLine b (cursorY b - wrappedLines b) = Some line
               ∧ isWrapped line = false).
Proof.
  destruct (countWrapped_spec b (cursorY b) 0 ltac:(lia) ltac:(lia)) as (H1 & H2 & H3).
  fold (wrappedLines b) in H1, H2, H3. split_and!; [lia| |].
  - intros k Hk. specialize (H2 k ltac:(lia)). unfold wrappedAt in H2.
    destruct (getLine b (cursorY b - k)) as [line|]; [by exists line|done].
  - intros Hlt. specialize (H3 Hlt). unfold wrappedAt in H3.
    destruct (getLine b (cursorY b - wrappedLines b)) as [line|]; [right; by exists line|by left].
Qed.

(** ** The theorems at work *)

Lemma cursor_within_line_witness :
  ControllerSpec.line_ok sample_live
  ∧ ControllerSpec.line_ok
      (TerminalController.steps
         [Data grinning_face; Data [127%N]; Data (js "x" ++ [13%N]); Resolved 0 0;
          Data (27%N :: js "[A"); Data (27%N :: js "[3~")] sample_live).
Proof.
  assert (ControllerSpec.line_ok sample_live) as Hw by (unfold ControllerSpec.line_ok; simpl; lia).
  split; [exact Hw|].
  apply (cursor_within_line sample_live Hw).
Defined.

Lemma backspace_after_glyph_witness :
  ControllerSpec.line_ok sample_live
  ∧ TerminalController.is_control (charCodeAt grinning_face 0) = false
  ∧ 2 ≤ length grinning_face
  ∧ TerminalController.input
      (TerminalController.onChar [127%N]
         (TerminalController.onChar grinning_face sample_live).2).2
    = js "a" ++ [55357%N] ++ js "b".
Proof.
  assert (ControllerSpec.line_ok sample_live) as Hw by (unfold ControllerSpec.line_ok; simpl; lia).
  assert (2 ≤ length grinning_face) as Hg by (simpl; lia).
  split_and!; [exact Hw|reflexivity|exact Hg|].
  exact (proj1 (proj2 (proj2 (backspace_after_glyph sample_live grinning_face Hw eq_refl Hg)))).
Defined.

Lemma ctrl_c_discards_witness :
  TerminalController.inputPhase sample_live = true
  ∧ TerminalController.trace (TerminalController.onChar [3%N] sample_live).2
    = [Render false true (Live (js "a") (js "b^C")); Write empty_string].
Proof.
  split; [reflexivity|].
  exact (proj1 (proj2 (ctrl_c_discards sample_live eq_refl))).
Defined.

Lemma recall_replaces_line_witness :
  HistorySpec.history_ok sample_history
  ∧ HistoryController.cursor sample_history = length (HistoryController.entries sample_history)
  ∧ (HistoryController.getNext (js "ab") sample_history).1 = None
  ∧ TerminalController.input (TerminalController.onEscape (js "[A") sample_live).2 = js "cd .."
  ∧ TerminalController.cursor (TerminalController.onEscape (js "[A") sample_live).2 = 5.
Proof.
  assert (HistorySpec.history_ok sample_history) as Hok by (split; simpl; lia).
  pose proof (recall_replaces_line sample_live) as (Hup & _ & _ & _ & Hlive).
  split_and!; [exact Hok|reflexivity|exact (Hlive Hok eq_refl)|exact (proj1 Hup)|exact (proj2 Hup)].
Defined.

Lemma browse_round_trip_witness :
  HistoryController.cursor (TerminalController.history sample_live)
  = length (HistoryController.entries (TerminalController.history sample_live))
  ∧ (ControllerSpec.browse_down 2
       (ControllerSpec.browse_up [λ s, s ++ js " -l"; λ s, s] sample_live).2).1
    = [js "cd .. -l"; js "ab"].
Proof.
  split; [reflexivity|].
  exact (proj1 (browse_round_trip sample_live [λ s, s ++ js " -l"; λ s, s]
                  eq_refl ltac:(simpl; lia))).
Defined.


(** ** The further theorems at work *)

Lemma browse_ok_kept_witness :
  HistoryBrowsing.browse_ok sample_history
  ∧ HistoryBrowsing.browse_ok (HistoryController.getPrevious (js "ab") sample_history).2
  ∧ HistoryBrowsing.browse_ok
      (HistoryController.rewind (Some (js "ab")) sample_history (MemoryStorage [])).1.2.
Proof.
  assert (HistoryBrowsing.browse_ok sample_history) as Hok.
  { split; [split; simpl; lia|]. intros i Hi. simpl in Hi. lia. }
  pose proof (browse_ok_kept sample_history (js "ab") (Some (js "ab")) (MemoryStorage []) Hok)
    as (Hup & _ & _ & _ & _ & _ & Hrewind).
  split_and!; [exact Hok|exact Hup|exact (Hrewind eq_refl)].
Defined.

Lemma recall_defined_witness :
  HistoryBrowsing.browse_ok sample_history
  ∧ 0 < HistoryController.cursor sample_history
  ∧ is_Some (HistoryController.getPrevious (js "ab") sample_history).1.
Proof.
  assert (HistoryBrowsing.browse_ok sample_history) as Hok.
  { split; [split; simpl; lia|]. intros i Hi. simpl in Hi. lia. }
  assert (0 < HistoryController.cursor sample_history) as Hc by (simpl; lia).
  split_and!; [exact Hok|exact Hc|].
  exact (proj2 (proj1 (recall_defined sample_history (js "ab") Hok)) Hc).
Defined.

Lemma accepted_entry_truncates_witness :
  HistoryController.accepts (Some (js "pwd")) sample_full = true
  ∧ (0 < HistoryController.size sample_full)%Z
  ∧ length (HistoryController.entries
              (HistoryController.rewind (Some (js "pwd")) sample_full (MemoryStorage [])).1.2)
    ≤ 2
  ∧ list.last (HistoryController.entries
                 (HistoryController.rewind (Some (js "pwd")) sample_full (MemoryStorage [])).1.2)
    = Some (js "pwd").
Proof.
  assert ((0 < HistoryController.size sample_full)%Z) as Hs by (simpl; lia).
  pose proof (accepted_entry_truncates sample_full (js "pwd") (MemoryStorage []) eq_refl)
    as (Hlen & Hlast & _).
  split_and!; [reflexivity|exact Hs|exact Hlen|exact (Hlast Hs)].
Defined.

Lemma persisted_history_reloads_witness :
  HistoryController.persistent sample_full = Some (js "history")
  ∧ HistoryController.accepts (Some (js "pwd")) sample_full = true
  ∧ Forall well_formed (HistoryController.entries sample_full)
  ∧ well_formed (js "pwd")
  ∧ HistoryController.constructor 5 (Some (js "history"))
      (HistoryController.rewind (Some (js "pwd")) sample_full (MemoryStorage [])).2
    = Constructed (HistorySpec.fresh 5 (Some (js "history")) [js "cd"; js "pwd"]).
Proof.
  assert (Forall well_formed (HistoryController.entries sample_full)) as Hes
    by (repeat first [reflexivity | apply Forall_nil_2 | apply Forall_cons_2]).
  assert (well_formed (js "pwd")) as He
    by (repeat first [reflexivity | apply Forall_nil_2 | apply Forall_cons_2]).
  split_and!; [reflexivity|reflexivity|exact Hes|exact He|].
  pose proof (persisted_history_reloads sample_full (MemoryStorage []) (js "history")
                (js "pwd") 5 eq_refl eq_refl Hes He) as H.
  destruct (HistoryController.rewind (Some (js "pwd")) sample_full (MemoryStorage []))
    as [[c h'] st'] eqn:E.
  vm_compute in E. injection E as <- <- <-.
  exact (proj2 (proj2 H)).
Defined.

Lemma normalizeInput_line_endings_witness :
  (10%N ∉ js "ls") ∧ list.last (js "ls") ≠ Some 13%N
  ∧ normalizeInput (js "ls" ++ [13%N; 10%N] ++ js "cd" ++ [10%N])
    = js "ls" ++ [13%N] ++ js "cd" ++ [13%N].
Proof.
  assert (10%N ∉ js "ls") as Hlf by (apply (bool_decide_unpack _); vm_compute; exact I).
  assert (list.last (js "ls") ≠ Some 13%N) as Hcr by discriminate.
  split_and!; [exact Hlf|exact Hcr|].
  exact (proj1 (proj2 (proj2 (proj2 (normalizeInput_line_endings (js "ls"))))
                 (js "ls") (js "cd" ++ [10%N]) Hlf Hcr)).
Defined.

Lemma printable_chunk_inserted_witness :
  ControllerSpec.line_ok sample_live
  ∧ forallb printable (grinning_face ++ js "x") = true
  ∧ TerminalController.onData (grinning_face ++ js "x") sample_live
    = (Normal (), rerender (typed (grinning_face ++ js "x") sample_live))
  ∧ TerminalController.input (typed (grinning_face ++ js "x") sample_live)
    = js "a" ++ grinning_face ++ js "xb".
Proof.
  assert (ControllerSpec.line_ok sample_live) as Hw by (unfold ControllerSpec.line_ok; simpl; lia).
  pose proof (printable_chunk_inserted (grinning_face ++ js "x") sample_live Hw
                ltac:(discriminate) eq_refl) as (Hdata & Hinput & _).
  split_and!; [exact Hw|reflexivity|exact Hdata|exact Hinput].
Defined.

Lemma insert_backspace_restores_witness :
  ControllerSpec.line_ok sample_live
  ∧ printable 120 = true
  ∧ (TerminalController.onChar [127%N] (TerminalController.onChar [120%N] sample_live).2).2
    = sample_live.
Proof.
  assert (ControllerSpec.line_ok sample_live) as Hw by (unfold ControllerSpec.line_ok; simpl; lia).
  split_and!; [exact Hw|reflexivity|].
  exact (insert_backspace_restores 120 sample_live Hw eq_refl).
Defined.

Lemma cursor_moves_compose_witness :
  ControllerSpec.line_ok sample_live
  ∧ 0 < TerminalController.cursor sample_live
  ∧ (TerminalController.onChar [127%N] sample_live).2
    = (TerminalController.onEscape (js "[3~")
         (TerminalController.onEscape (js "[D") sample_live).2).2
  ∧ (TerminalController.onEscape (js "[C")
       (TerminalController.onEscape (js "[D") sample_live).2).2 = sample_live.
Proof.
  assert (ControllerSpec.line_ok sample_live) as Hw by (unfold ControllerSpec.line_ok; simpl; lia).
  assert (0 < TerminalController.cursor sample_live) as Hc by (simpl; lia).
  pose proof (proj1 (cursor_moves_compose sample_live Hw) Hc) as [Hback Hleft].
  split_and!; [exact Hw|exact Hc|exact Hback|exact Hleft].
Defined.

Lemma unknown_input_ignored_witness :
  forallb ignored [9%N; 1%N] = true
  ∧ (js "[Z" ∉ [js "[A"; js "[B"; js "[D"; js "[C"; js "[3~"])
  ∧ TerminalController.onData [9%N; 1%N] sample_live = (Normal (), rerender sample_live)
  ∧ TerminalController.onData (27%N :: js "[Z") sample_live
    = (Normal (), rerender (TerminalController.log (js "[Z") sample_live)).
Proof.
  assert (js "[Z" ∉ [js "[A"; js "[B"; js "[D"; js "[C"; js "[3~"]) as Hz
    by (apply (bool_decide_unpack _); vm_compute; exact I).
  pose proof (unknown_input_ignored sample_live) as [Hctl Hesc].
  split_and!; [reflexivity|exact Hz| |exact (Hesc (js "[Z") Hz)].
  exact (Hctl [9%N; 1%N] ltac:(discriminate) eq_refl).
Defined.

Lemma enter_runs_handler_witness :
  TerminalController.inputPhase sample_live = true
  ∧ (HistoryController.rewind (Some (TerminalController.input sample_live))
       (TerminalController.history sample_live)
       (TerminalController.localStorage sample_live)).1.1 = Normal ()
  ∧ TerminalController.trace (TerminalController.onChar [13%N] sample_live).2
    = [Render false true (Live (js "a") (js "b")); RunHandler (js "ab")]
  ∧ TerminalController.pending (TerminalController.onChar [13%N] sample_live).2
    = [AwaitHandler].
Proof.
  split_and!; [reflexivity|reflexivity| |];
    pose proof (enter_runs_handler sample_live eq_refl eq_refl) as H;
    destruct (TerminalController.onChar [13%N] sample_live) as [c w'] eqn:E;
    vm_compute in E; injection E as <- <-.
  - exact (proj1 (proj2 H)).
  - exact (proj1 (proj2 (proj2 H))).
Defined.

Lemma pasted_lines_queue_witness :
  TerminalController.inputPhase sample_live = true
  ∧ ControllerSpec.line_ok sample_live
  ∧ HistoryController.persistent (TerminalController.history sample_live) = None
  ∧ forallb printable (js "x") = true
  ∧ Forall (λ l, forallb printable l = true) [js "ls -l"; js "pwd"]
  ∧ TerminalController.trace
      (TerminalController.onData (lines_text [js "x"; js "ls -l"; js "pwd"]) sample_live).2
    = [Render false true (Live (js "ax") (js "b")); RunHandler (js "axb")]
  ∧ TerminalController.inputBuffer
      (TerminalController.onData (lines_text [js "x"; js "ls -l"; js "pwd"]) sample_live).2
    = [TerminalController.Entry (js "ls -l") true; TerminalController.Entry (js "pwd") true].
Proof.
  assert (ControllerSpec.line_ok sample_live) as Hw by (unfold ControllerSpec.line_ok; simpl; lia).
  assert (Forall (λ l, forallb printable l = true) [js "ls -l"; js "pwd"]) as Hrest
    by (repeat first [reflexivity | apply Forall_nil_2 | apply Forall_cons_2]).
  split_and!; [reflexivity|exact Hw|reflexivity|reflexivity|exact Hrest| |];
    pose proof (pasted_lines_queue (js "x") [js "ls -l"; js "pwd"] sample_live
                  eq_refl Hw eq_refl eq_refl Hrest) as H;
    cbv zeta in H;
    destruct (TerminalController.onData (lines_text [js "x"; js "ls -l"; js "pwd"]) sample_live)
      as [c w'] eqn:E;
    vm_compute in E; injection E as <- <-.
  - exact (proj1 (proj2 H)).
  - exact (proj1 (proj2 (proj2 H))).
Defined.

Lemma no_key_no_storage_witness :
  HistoryController.persistent (TerminalController.history sample_live) = None
  ∧ TerminalController.localStorage
      (TerminalController.steps
         [Data (js "x" ++ [13%N]); Resolved 0 0; Data (27%N :: js "[A")] sample_live)
    = MemoryStorage []
  ∧ (TerminalController.onData (js "q" ++ [13%N])
       (TerminalController.steps
          [Data (js "x" ++ [13%N]); Resolved 0 0; Data (27%N :: js "[A")] sample_live)).1
    = Normal ().
Proof.
  pose proof (no_key_no_storage sample_live
                [Data (js "x" ++ [13%N]); Resolved 0 0; Data (27%N :: js "[A")]
                (js "q" ++ [13%N]) eq_refl) as (Hst & _ & _ & Hdata).
  split_and!; [reflexivity|exact Hst|exact Hdata].
Defined.

Lemma type_ahead_is_silent_witness :
  TerminalController.inputPhase sample_entering = false
  ∧ Forall from_outside [Data (js "ls" ++ [13%N]); Resize; Data (js "x")]
  ∧ TerminalController.trace
      (TerminalController.steps [Data (js "ls" ++ [13%N]); Resize; Data (js "x")]
         sample_entering)
    = TerminalController.trace sample_entering
  ∧ TerminalController.pending
      (TerminalController.steps [Data (js "ls" ++ [13%N]); Resize; Data (js "x")]
         sample_entering)
    = [AwaitFlush].
Proof.
  assert (Forall from_outside [Data (js "ls" ++ [13%N]); Resize; Data (js "x")]) as Hevs
    by (repeat first [exact I | apply Forall_nil_2 | apply Forall_cons_2]).
  pose proof (type_ahead_is_silent sample_entering
                [Data (js "ls" ++ [13%N]); Resize; Data (js "x")] eq_refl Hevs)
    as (Htrace & Hpending & _).
  split_and!; [reflexivity|exact Hevs|exact Htrace|exact Hpending].
Defined.

Lemma handler_rejection_is_final_witness :
  TerminalController.inputPhase sample_running = false
  ∧ TerminalController.pending sample_running = [AwaitHandler]
  ∧ TerminalController.inputPhase
      (TerminalController.steps [Rejected 0; Data (js "x" ++ [13%N]); Resolved 0 0]
         sample_running) = false
  ∧ TerminalController.trace
      (TerminalController.steps [Rejected 0; Data (js "x" ++ [13%N]); Resolved 0 0]
         sample_running)
    = [Render false true (Live (js "a") (js "b")); RunHandler (js "ab")].
Proof.
  pose proof (handler_rejection_is_final sample_running
                [Data (js "x" ++ [13%N]); Resolved 0 0] eq_refl eq_refl)
    as (Hphase & _ & Htrace).
  split_and!; [reflexivity|reflexivity|exact Hphase|exact Htrace].
Defined.

Lemma wrappedLines_counts_run_witness :
  wrappedLines sample_buffer < cursorY sample_buffer
  ∧ wrappedLines sample_buffer = 2
  ∧ (getLine sample_buffer 1 = None
     ∨ ∃ line, getLine sample_buffer 1 = Some line ∧ isWrapped line = false).
Proof.
  assert (wrappedLines sample_buffer < cursorY sample_buffer) as Hlt by (vm_compute; lia).
  split_and!; [exact Hlt|reflexivity|].
  exact (proj2 (proj2 (wrappedLines_counts_run sample_buffer)) Hlt).
Defined.
